(** * lab_5_scraper/scraper.py: a shallow embedding and its properties

    The development follows the layout of the Python module:
    configuration values and their validation ([Config]), the request
    issuer ([make_request]), the URL collector ([Crawler]), the article
    extractor ([HTMLParser]), the environment preparation
    ([prepare_environment]) and the driver ([main]).

    Python integers are [Z], Python strings are [string], [len] is
    [Z.of_nat (length _)].  Exceptions are values of [exn] carried by
    [result]; code that touches the network, the collected URL list or the
    persistence functions lives in the state-and-exception monad [M]. *)

From Stdlib Require Import ZArith Ascii String List Lia Bool.
From stdpp Require Import base option list strings gmap.
From Equations Require Import Equations.

#[local] Set Warnings "-register-all".
#[local] Open Scope string_scope.
#[local] Open Scope Z_scope.

(** ** Exceptions and results *)

(** The seven exception classes of the module, and the exceptions of the
    interpreter and of the libraries that the modelled code can meet. *)
Inductive exn : Type :=
| IncorrectSeedURLError
| NumberOfArticlesOutOfRangeError
| IncorrectNumberOfArticlesError
| IncorrectHeadersError
| IncorrectEncodingError
| IncorrectTimeoutError
| IncorrectVerifyError
| TypeError
| AttributeError
| RequestException
| FileExistsError
| NotADirectoryError
| OSError.

Inductive result (A : Type) : Type :=
| Return (a : A)
| Raise (e : exn).
Arguments Return {A} a.
Arguments Raise {A} e.

Definition raised {A} (r : result A) : bool :=
  match r with Return _ => false | Raise _ => true end.

(** ** Values read from the configuration file

    [json.load] produces [None], booleans, integers, floats, strings, lists
    and dictionaries with string keys.  A float is kept as its literal: the
    validation only asks whether a value is one. *)
Inductive pyval : Type :=
| PyNone
| PyBool (b : bool)
| PyInt (n : Z)
| PyFloat (literal : string)
| PyStr (s : string)
| PyList (items : list pyval)
| PyDict (items : list (string * pyval)).

Definition is_list (v : pyval) : bool :=
  match v with PyList _ => true | _ => false end.
Definition is_str (v : pyval) : bool :=
  match v with PyStr _ => true | _ => false end.
Definition is_dict (v : pyval) : bool :=
  match v with PyDict _ => true | _ => false end.
Definition is_bool (v : pyval) : bool :=
  match v with PyBool _ => true | _ => false end.

(** [isinstance(v, int)]: [bool] is a subclass of [int]. *)
Definition is_int (v : pyval) : bool :=
  match v with PyInt _ | PyBool _ => true | _ => false end.

(** The integer a value of class [int] compares as ([True] is 1). *)
Definition int_value (v : pyval) : Z :=
  match v with
  | PyInt n => n
  | PyBool true => 1
  | _ => 0
  end.

(** ** Config *)

(** The fields [Config.__init__] copies from the [ConfigDTO]. *)
Record ConfigDTO : Type := {
  dto_seed_urls : pyval;
  dto_headers : pyval;
  dto_total_articles : pyval;
  dto_timeout : pyval;
  dto_encoding : pyval;
  dto_headless_mode : pyval;
  dto_should_verify_certificate : pyval
}.

(** The element test of the generator in the first check:
    [isinstance(url, str) and url.startswith("https://otr-online.ru/")]. *)
Definition seed_url_ok (url : pyval) : bool :=
  match url with
  | PyStr s => String.prefix "https://otr-online.ru/" s
  | _ => false
  end.

Definition seed_urls_ok (v : pyval) : bool :=
  match v with
  | PyList urls => forallb seed_url_ok urls
  | _ => false
  end.

(** [Config._validate_config_content]: the checks in the order of the
    source, the first failing one raises. *)
Definition _validate_config_content (c : ConfigDTO) : result unit :=
  if negb (is_list (dto_seed_urls c)) || negb (seed_urls_ok (dto_seed_urls c))
  then Raise IncorrectSeedURLError
  else if negb (is_int (dto_total_articles c))
          || is_bool (dto_total_articles c)
          || (int_value (dto_total_articles c) <? 0)
  then Raise IncorrectNumberOfArticlesError
  else if int_value (dto_total_articles c) >? 150
  then Raise NumberOfArticlesOutOfRangeError
  else if negb (is_dict (dto_headers c))
  then Raise IncorrectHeadersError
  else if negb (is_str (dto_encoding c))
  then Raise IncorrectEncodingError
  else if negb (is_int (dto_timeout c))
          || negb ((0 <? int_value (dto_timeout c))
                   && (int_value (dto_timeout c) <=? 60))
  then Raise IncorrectTimeoutError
  else if negb (is_bool (dto_should_verify_certificate c))
  then Raise IncorrectVerifyError
  else if negb (is_bool (dto_headless_mode c))
  then Raise IncorrectVerifyError
  else Return tt.

(** A constructed [Config], read through its getters. *)
Record Config : Type := {
  get_seed_urls : list string;
  get_num_articles : Z;
  get_headers : list (string * pyval);
  get_encoding : string;
  get_timeout : Z;
  get_verify_certificate : bool;
  get_headless_mode : bool
}.

Definition str_items (v : pyval) : list string :=
  match v with
  | PyList urls =>
      omap (fun u => match u with PyStr s => Some s | _ => None end) urls
  | _ => []
  end.

Definition dict_items (v : pyval) : list (string * pyval) :=
  match v with PyDict kvs => kvs | _ => [] end.

Definition str_value (v : pyval) : string :=
  match v with PyStr s => s | _ => "" end.

Definition bool_value (v : pyval) : bool :=
  match v with PyBool b => b | _ => false end.

(** [Config.__init__] once the file is read: the fields are stored and
    validated; a [Config] exists only when validation returned. *)
Definition Config_init (c : ConfigDTO) : result Config :=
  match _validate_config_content c with
  | Raise e => Raise e
  | Return _ =>
      Return {| get_seed_urls := str_items (dto_seed_urls c);
                get_num_articles := int_value (dto_total_articles c);
                get_headers := dict_items (dto_headers c);
                get_encoding := str_value (dto_encoding c);
                get_timeout := int_value (dto_timeout c);
                get_verify_certificate :=
                  bool_value (dto_should_verify_certificate c);
                get_headless_mode := bool_value (dto_headless_mode c) |}
  end.

(** Field updates, used to state what one changed field does. *)
Definition with_seed_urls (v : pyval) (c : ConfigDTO) : ConfigDTO :=
  {| dto_seed_urls := v; dto_headers := dto_headers c;
     dto_total_articles := dto_total_articles c; dto_timeout := dto_timeout c;
     dto_encoding := dto_encoding c; dto_headless_mode := dto_headless_mode c;
     dto_should_verify_certificate := dto_should_verify_certificate c |}.
Definition with_headers (v : pyval) (c : ConfigDTO) : ConfigDTO :=
  {| dto_seed_urls := dto_seed_urls c; dto_headers := v;
     dto_total_articles := dto_total_articles c; dto_timeout := dto_timeout c;
     dto_encoding := dto_encoding c; dto_headless_mode := dto_headless_mode c;
     dto_should_verify_certificate := dto_should_verify_certificate c |}.
Definition with_total_articles (v : pyval) (c : ConfigDTO) : ConfigDTO :=
  {| dto_seed_urls := dto_seed_urls c; dto_headers := dto_headers c;
     dto_total_articles := v; dto_timeout := dto_timeout c;
     dto_encoding := dto_encoding c; dto_headless_mode := dto_headless_mode c;
     dto_should_verify_certificate := dto_should_verify_certificate c |}.
Definition with_timeout (v : pyval) (c : ConfigDTO) : ConfigDTO :=
  {| dto_seed_urls := dto_seed_urls c; dto_headers := dto_headers c;
     dto_total_articles := dto_total_articles c; dto_timeout := v;
     dto_encoding := dto_encoding c; dto_headless_mode := dto_headless_mode c;
     dto_should_verify_certificate := dto_should_verify_certificate c |}.
Definition with_encoding (v : pyval) (c : ConfigDTO) : ConfigDTO :=
  {| dto_seed_urls := dto_seed_urls c; dto_headers := dto_headers c;
     dto_total_articles := dto_total_articles c; dto_timeout := dto_timeout c;
     dto_encoding := v; dto_headless_mode := dto_headless_mode c;
     dto_should_verify_certificate := dto_should_verify_certificate c |}.
Definition with_headless_mode (v : pyval) (c : ConfigDTO) : ConfigDTO :=
  {| dto_seed_urls := dto_seed_urls c; dto_headers := dto_headers c;
     dto_total_articles := dto_total_articles c; dto_timeout := dto_timeout c;
     dto_encoding := dto_encoding c; dto_headless_mode := v;
     dto_should_verify_certificate := dto_should_verify_certificate c |}.
Definition with_verify (v : pyval) (c : ConfigDTO) : ConfigDTO :=
  {| dto_seed_urls := dto_seed_urls c; dto_headers := dto_headers c;
     dto_total_articles := dto_total_articles c; dto_timeout := dto_timeout c;
     dto_encoding := dto_encoding c; dto_headless_mode := dto_headless_mode c;
     dto_should_verify_certificate := v |}.

(** ** Parsed documents

    What the code asks of a [BeautifulSoup] object: the tree of tags and
    strings, [find] and [find_all] by tag name in document order, the
    attributes of a tag and the text below it. *)
Inductive PageElement : Type :=
| NavigableString (s : string)
| Tag (name : string) (attrs : list (string * string))
      (contents : list PageElement).

(** The elements below [e], in document order. *)
Fixpoint descendants (e : PageElement) : list PageElement :=
  match e with
  | NavigableString _ => []
  | Tag _ _ cs => flat_map (fun c => c :: descendants c) cs
  end.

Definition attrs_of (e : PageElement) : list (string * string) :=
  match e with Tag _ attrs _ => attrs | NavigableString _ => [] end.

Definition has_name (name : string) (e : PageElement) : bool :=
  match e with
  | Tag n _ _ => bool_decide (n = name)
  | NavigableString _ => false
  end.

(** [tag.attrs.get(key)]: the value of an attribute, if the tag has it. *)
Fixpoint attr (key : string) (attrs : list (string * string)) : option string :=
  match attrs with
  | [] => None
  | (k, v) :: rest => if bool_decide (k = key) then Some v else attr key rest
  end.

(** [class_=c]: [class] is a multi-valued attribute, matched token by
    token. *)
Definition has_class (c : string) (e : PageElement) : bool :=
  match attr "class" (attrs_of e) with
  | Some v => bool_decide (c ∈ String.words v)
  | None => false
  end.

Definition find_all (name : string) (soup : PageElement) : list PageElement :=
  List.filter (has_name name) (descendants soup).

Definition find (name : string) (soup : PageElement) : option PageElement :=
  head (find_all name soup).

Definition find_class (name c : string) (soup : PageElement)
  : option PageElement :=
  head (List.filter (fun e => has_name name e && has_class c e)
                    (descendants soup)).

(** The strings below [e], in document order. *)
Definition strings_of (e : PageElement) : list string :=
  omap (fun d => match d with NavigableString s => Some s | Tag _ _ _ => None end)
       (descendants e).

Fixpoint concat_strings (l : list string) : string :=
  match l with
  | [] => ""
  | s :: rest => String.append s (concat_strings rest)
  end.

(** The string ["\n"]. *)
Definition newline : string := String "010"%char EmptyString.

(** [sep.join(l)] *)
Fixpoint join (sep : string) (l : list string) : string :=
  match l with
  | [] => ""
  | [s] => s
  | s :: rest => String.append s (String.append sep (join sep rest))
  end.

(** [str.isspace] on the ASCII range. *)
Definition isspace (a : ascii) : bool :=
  let n := Ascii.nat_of_ascii a in
  ((9 <=? n)%nat && (n <=? 13)%nat) || ((28 <=? n)%nat && (n <=? 32)%nat).

Fixpoint lstrip (s : string) : string :=
  match s with
  | String a rest => if isspace a then lstrip rest else s
  | EmptyString => EmptyString
  end.

Definition strip (s : string) : string :=
  String.rev (lstrip (String.rev (lstrip s))).

(** [tag.get_text()] *)
Definition get_text (e : PageElement) : string :=
  concat_strings (strings_of e).

(** [tag.get_text(strip=True)]: every string stripped, empty ones dropped. *)
Definition get_text_strip (e : PageElement) : string :=
  concat_strings
    (List.filter (fun s => negb (bool_decide (s = "")))
                 (map strip (strings_of e))).

(** ** Responses, articles and the environment of a run *)

(** A [requests] response: the status code, the encoding used to read the
    body, and the body as text under each encoding. *)
Record Response : Type := {
  status_code : Z;
  encoding : string;
  decoded : string -> string
}.

(** [response.ok], which is also the truth value of a response: no 4xx or
    5xx status. *)
Definition ok (r : Response) : bool :=
  negb ((400 <=? status_code r) && (status_code r <? 600)).

Definition text (r : Response) : string := decoded r (encoding r).

Definition set_encoding (e : string) (r : Response) : Response :=
  {| status_code := status_code r; encoding := e; decoded := decoded r |}.

(** Modelled from the spec: the [Article] class of [core_utils], whose
    source is not part of the module; an article record holds its id, its
    source URL, a title, a sequence of authors and a body text. *)
Record Article : Type := {
  article_id : Z;
  url : string;
  title : string;
  author : list string;
  article_text : string
}.

Definition set_text (t : string) (a : Article) : Article :=
  {| article_id := article_id a; url := url a; title := title a;
     author := author a; article_text := t |}.
Definition set_title (t : string) (a : Article) : Article :=
  {| article_id := article_id a; url := url a; title := t;
     author := author a; article_text := article_text a |}.
Definition set_author (l : list string) (a : Article) : Article :=
  {| article_id := article_id a; url := url a; title := title a;
     author := l; article_text := article_text a |}.

(** What a run does not decide itself: the answer of the network to the
    [k]-th request of the run, the tree the lxml parser builds from a text,
    and the values the [Article] constructor gives to the fields the
    extractor fills. *)
Record Env : Type := {
  requests_get :
    nat -> string -> list (string * pyval) -> Z -> bool -> result Response;
  lxml : string -> PageElement;
  new_title : string;
  new_author : list string;
  new_text : string
}.

(** The calls a run makes, in the order it makes them. *)
Inductive Event : Type :=
| Requested (target : string)
| Extracted (link : string)
| Parsing (full_url : string) (id : Z)
| ToRaw (a : Article)
| ToMeta (a : Article).

(** The state a run threads: [crawler.urls], the number of requests sent
    so far and the calls made so far. *)
Record State : Type := {
  urls : list string;
  sent : nat;
  log : list Event
}.

Definition M (A : Type) : Type := State -> State * result A.

#[export] Instance M_ret : MRet M := fun A a st => (st, Return a).
#[export] Instance M_bind : MBind M := fun A B f m st =>
  match m st with
  | (st', Return a) => f a st'
  | (st', Raise e) => (st', Raise e)
  end.

(** The state with one more call in its log, and the state with one more
    collected URL. *)
Definition logged (e : Event) (st : State) : State :=
  {| urls := urls st; sent := sent st; log := log st ++ [e] |}.

Definition appended (link : string) (st : State) : State :=
  {| urls := urls st ++ [link]; sent := sent st; log := log st |}.

Definition record (e : Event) : M unit := fun st => (logged e st, Return tt).

Definition get_urls : M (list string) := fun st => (st, Return (urls st)).

Definition len {A} (l : list A) : Z := Z.of_nat (length l).

(** [for x in l: body(x)] for a body that neither breaks nor continues. *)
Fixpoint for_each {A} (l : list A) (body : A -> M unit) : M unit :=
  match l with
  | [] => mret tt
  | x :: rest => body x ;; for_each rest body
  end.

(** [enumerate(l)] *)
Definition enumerate {A} (l : list A) : list (Z * A) :=
  imap (fun i x => (Z.of_nat i, x)) l.

(** ** Crawler *)

(** [Crawler._extract_url] *)
Definition _extract_url (article_bs : PageElement) : string :=
  match find "a" article_bs with
  | Some article_link =>
      match attr "href" (attrs_of article_link) with
      | Some url =>
          if negb (String.prefix "http" url)
          then String.append "https://otr-online.ru" url
          else url
      | None => "EXTRACTION ERROR"
      end
  | None => "EXTRACTION ERROR"
  end.

(** One pass through the body of the [while] loop of
    [Crawler.find_articles], as a change of the state. *)
Definition attempt (soup : PageElement) (st : State) : State :=
  let link := _extract_url soup in
  let st := logged (Extracted link) st in
  if bool_decide (link = "EXTRACTION ERROR") then st
  else if bool_decide (link ∈ urls st) then st else appended link st.

(** The [while] loop of [Crawler.find_articles], from a value of
    [url_attempts] to the value it has when the loop is left.  Each call of
    [_extract_url] is recorded. *)
Equations? attempts_loop (config : Config) (soup : PageElement)
  (max_url_attempts url_attempts : Z) (st : State)
  : State * Z by wf (Z.to_nat (max_url_attempts - url_attempts)) lt :=
attempts_loop config soup max_url_attempts url_attempts st
  with Logic.inspect ((len (urls st) <? get_num_articles config)
                && (url_attempts <? max_url_attempts)) := {
  | exist _ true _ =>
      let link := _extract_url soup in
      let st := logged (Extracted link) st in
      if bool_decide (link = "EXTRACTION ERROR")
      then attempts_loop config soup max_url_attempts (url_attempts + 1) st
      else
        attempts_loop config soup max_url_attempts (url_attempts + 1)
          (if bool_decide (link ∈ urls st) then st else appended link st);
  | exist _ false _ => (st, url_attempts) }.
Proof.
  all: apply andb_true_iff in e as [_ ?%Z.ltb_lt]; lia.
Qed.

Section Run.

Variable E : Env.

(** [make_request] *)
Definition make_request (target : string) (config : Config) : M Response :=
  fun st =>
    let st' := {| urls := urls st; sent := S (sent st);
                  log := log st ++ [Requested target] |} in
    match requests_get E (sent st) target (get_headers config)
            (get_timeout config) (get_verify_certificate config) with
    | Return request =>
        (st', Return (set_encoding (get_encoding config) request))
    | Raise e => (st', Raise e)
    end.

(** The answer of the network to a request sent in state [st]. *)
Definition answer (config : Config) (target : string) (st : State)
  : result Response :=
  requests_get E (sent st) target (get_headers config) (get_timeout config)
    (get_verify_certificate config).

(** [Crawler.__init__] *)
Definition Crawler_init (st : State) : State :=
  {| urls := []; sent := sent st; log := log st |}.

Definition get_search_urls (config : Config) : list string :=
  get_seed_urls config.

Definition while_attempts (config : Config) (soup : PageElement)
  (max_url_attempts url_attempts : Z) : M Z :=
  fun st =>
    let '(st', n) := attempts_loop config soup max_url_attempts url_attempts st
    in (st', Return n).

(** The inner [for i in self.get_search_urls()] of [find_articles], from a
    value of [url_attempts] to its value when the loop is left. *)
Fixpoint inner_for (config : Config) (soup : PageElement)
  (max_url_attempts : Z) (seeds : list string) (url_attempts : Z) : M Z :=
  match seeds with
  | [] => mret url_attempts
  | i :: rest =>
      query ← make_request i config;
      if negb (ok query)
      then inner_for config soup max_url_attempts rest url_attempts
      else
        url_attempts ←
          while_attempts config soup max_url_attempts url_attempts;
        collected ← get_urls;
        if len collected >=? get_num_articles config
        then mret url_attempts
        else inner_for config soup max_url_attempts rest url_attempts
  end.

(** The body of the outer [for seed_url in self.get_search_urls()]. *)
Definition visit_seed (config : Config) (seed_url : string) : M unit :=
  response ← make_request seed_url config;
  if negb (ok response) || (status_code response >? 400)
  then mret tt
  else
    let soup := lxml E (text response) in
    let max_url_attempts := get_num_articles config * 2 in
    inner_for config soup max_url_attempts (get_search_urls config) 0 ;;
    mret tt.

(** [Crawler.find_articles] *)
Definition find_articles (config : Config) : M unit :=
  for_each (get_search_urls config) (visit_seed config).

(** ** HTMLParser *)

Definition Article_init (url : string) (article_id : Z) : Article :=
  {| article_id := article_id; url := url; title := new_title E;
     author := new_author E; article_text := new_text E |}.

Record HTMLParser : Type := {
  full_url : string;
  parser_article_id : Z;
  parser_config : Config;
  article : Article
}.

(** [HTMLParser.__init__] *)
Definition HTMLParser_init (full_url : string) (article_id : Z)
  (config : Config) : HTMLParser :=
  {| full_url := full_url; parser_article_id := article_id;
     parser_config := config; article := Article_init full_url article_id |}.

(** [HTMLParser._fill_article_with_text] *)
Definition _fill_article_with_text (article_soup : PageElement)
  (a : Article) : Article :=
  match find_all "div" article_soup with
  | [] => set_text "NOT FOUND" a
  | div_body => set_text (join newline (map get_text div_body)) a
  end.

(** [HTMLParser._fill_article_with_meta_information]: [title.get_text()]
    on a missing title is an [AttributeError]. *)
Definition _fill_article_with_meta_information (article_soup : PageElement)
  (a : Article) : result Article :=
  match find "title" article_soup with
  | None => Raise AttributeError
  | Some title =>
      let a := set_title (get_text title) a in
      match find_class "itemprop" "author" article_soup with
      | Some author_tag => Return (set_author [get_text_strip author_tag] a)
      | None => Return (set_author ["NOT FOUND"] a)
      end
  end.

(** The values [parse] is annotated to return, [Union[Article, bool, list]]. *)
Inductive parsed : Type :=
| AnArticle (a : Article)
| ABool (b : bool)
| AList (l : list pyval).

(** [isinstance(v, Article)] *)
Definition is_Article (v : parsed) : bool :=
  match v with AnArticle _ => true | _ => false end.

Definition lift {A} (r : result A) : M A := fun st => (st, r).

(** [HTMLParser.parse] *)
Definition parse (self : HTMLParser) : M parsed :=
  record (Parsing (full_url self) (parser_article_id self)) ;;
  response ← make_request (full_url self) (parser_config self);
  let response := set_encoding "utf-8" response in
  if ok response
  then
    let soup := lxml E (text response) in
    let a := _fill_article_with_text soup (article self) in
    a ← lift (_fill_article_with_meta_information soup a);
    mret (AnArticle a)
  else mret (AnArticle (article self)).

(** ** main *)

(** The body of the loop of [main].  The first branch of the match is the
    test [isinstance(article_info, Article)], which [is_Article] decides;
    [to_raw] and [to_meta] are recorded as calls. *)
Definition process_url (configuration : Config) (item : Z * string) : M unit :=
  let '(index, url) := item in
  let parser := HTMLParser_init url (index + 1) configuration in
  article_info ← parse parser;
  match article_info with
  | AnArticle a => record (ToRaw a) ;; record (ToMeta a)
  | _ => mret tt
  end.

(** The loop of [main] over [enumerate(crawler.urls)]. *)
Definition process_urls (configuration : Config) : M unit :=
  collected ← get_urls;
  for_each (enumerate collected) (process_url configuration).

End Run.

(** ** prepare_environment

    The file system is a tree: a node is a regular file or a directory
    that maps names to nodes.  A path is the list of names that leads from
    the root to a node; the empty path is the root itself. *)
Inductive node : Type :=
| File
| Dir (entries : gmap string node).

Definition path : Type := list string.

Fixpoint resolve (p : path) (n : node) : option node :=
  match p with
  | [] => Some n
  | name :: rest =>
      match n with
      | Dir entries => entries !! name ≫= resolve rest
      | File => None
      end
  end.

(** [pathlib.Path(p).is_dir()] *)
Definition is_dir (p : path) (fs : node) : bool :=
  match resolve p fs with Some (Dir _) => true | _ => false end.

(** The tree without the node at [p]. *)
Fixpoint remove (p : path) (n : node) : node :=
  match p, n with
  | [], _ | _, File => n
  | [name], Dir entries => Dir (delete name entries)
  | name :: rest, Dir entries =>
      match entries !! name with
      | Some child => Dir (<[name := remove rest child]> entries)
      | None => n
      end
  end.

(** [shutil.rmtree(p)] on a directory; the root cannot be removed. *)
Definition rmtree (p : path) (fs : node) : result node :=
  match p with
  | [] => Raise OSError
  | _ => if is_dir p fs then Return (remove p fs) else Raise NotADirectoryError
  end.

(** A chain of fresh directories, the last one empty. *)
Fixpoint fresh (p : path) : node :=
  match p with
  | [] => Dir ∅
  | name :: rest => Dir {[ name := fresh rest ]}
  end.

(** [pathlib.Path(p).mkdir(parents=True)]: missing parents are created, an
    existing node at [p] is a [FileExistsError], a regular file on the way
    a [NotADirectoryError]. *)
Fixpoint mkdir_parents (p : path) (n : node) : result node :=
  match p, n with
  | [], _ => Raise FileExistsError
  | _ :: _, File => Raise NotADirectoryError
  | name :: rest, Dir entries =>
      match entries !! name with
      | None => Return (Dir (<[name := fresh rest]> entries))
      | Some child =>
          match mkdir_parents rest child with
          | Return child' => Return (Dir (<[name := child']> entries))
          | Raise e => Raise e
          end
      end
  end.

(** [prepare_environment] *)
Definition prepare_environment (base_path : path) (fs : node) : result node :=
  if is_dir base_path fs
  then match rmtree base_path fs with
       | Return fs' => mkdir_parents base_path fs'
       | Raise e => Raise e
       end
  else mkdir_parents base_path fs.

(** [main], given the content of the configuration file, the path
    [ASSETS_PATH] and the file system it starts on. *)
Definition main (E : Env) (assets_path : path) (config_content : ConfigDTO)
  (fs : node) : node * State * result unit :=
  let st := {| urls := []; sent := 0; log := [] |} in
  match Config_init config_content with
  | Raise e => (fs, st, Raise e)
  | Return configuration =>
      match prepare_environment assets_path fs with
      | Raise e => (fs, st, Raise e)
      | Return fs' =>
          let '(st', r) :=
            (find_articles E configuration ;; process_urls E configuration)
              (Crawler_init st) in
          (fs', st', r)
      end
  end.

(** ** What a log shows *)

Definition is_extraction (e : Event) : bool :=
  match e with Extracted _ => true | _ => false end.

(** The number of calls of [_extract_url]. *)
Definition extractions (events : list Event) : nat :=
  length (List.filter is_extraction events).

(** The links [_extract_url] returned, the failure value left out. *)
Definition discoveries (events : list Event) : list string :=
  omap (fun e => match e with
                 | Extracted link =>
                     if bool_decide (link = "EXTRACTION ERROR")
                     then None else Some link
                 | _ => None
                 end) events.

(** [if link not in urls: urls.append(link)] *)
Definition add_new (collected : list string) (link : string) : list string :=
  if bool_decide (link ∈ collected) then collected else collected ++ [link].

(** The distinct elements of a list, each at the place of its first
    occurrence. *)
Definition first_occurrences (links : list string) : list string :=
  fold_left add_new links [].

(** [st'] is reached from [st] by the calls [events]: they are what the
    log gained, the collected URLs gained the new links among them in the
    order they were found, and never beyond the configured count. *)
Definition reaches (config : Config) (st : State) (events : list Event)
  (st' : State) : Prop :=
  log st' = (log st ++ events)%list
  /\ urls st' = fold_left add_new (discoveries events) (urls st)
  /\ len (urls st') <= Z.max (len (urls st)) (get_num_articles config).

(** A stage of the collection keeps what was collected: it only adds at
    the end, adds no URL twice and respects the configured count. *)
Definition keeps_collection (config : Config) (stage : State -> State) : Prop :=
  forall st : State,
    urls st `prefix_of` urls (stage st)
    /\ (NoDup (urls st) -> NoDup (urls (stage st)))
    /\ (len (urls st) <= get_num_articles config ->
        len (urls (stage st)) <= get_num_articles config).

(** A call made while one seed document is worked on: a request, or an
    extraction that returned [link]. *)
Definition seed_event (link : string) (e : Event) : Prop :=
  e = Extracted link \/ exists target, e = Requested target.

(** The parsers that were run: the URL and the id each was built with. *)
Definition parsings (events : list Event) : list (string * Z) :=
  omap (fun e => match e with Parsing u i => Some (u, i) | _ => None end) events.

Definition is_persistence (e : Event) : bool :=
  match e with ToRaw _ | ToMeta _ => true | _ => false end.

(** The calls of [to_raw] and [to_meta]. *)
Definition persistence (events : list Event) : list Event :=
  List.filter is_persistence events.

(** The calls the driver makes for the records [l]. *)
Definition persist_all (l : list Article) : list Event :=
  flat_map (fun a => [ToRaw a; ToMeta a]) l.

(** The calls of one round of the loop of [main], for the item of
    [enumerate(crawler.urls)] it works on and the record [parse] returned,
    if it returned. *)
Definition round_of (x : Z * string * option Article) : list Event :=
  let '(index, url, outcome) := x in
  [Parsing url (index + 1); Requested url]
  ++ match outcome with
     | Some a => [ToRaw a; ToMeta a]
     | None => []
     end.

(** The outcomes of the rounds of a run that returned the records [l] and
    ended as [r]: the round that raised returned no record. *)
Definition outcomes_of (l : list Article) (r : result unit)
  : list (option Article) :=
  map Some l ++ (if raised r then [None] else []).

(** [enumerate(l, start)] *)
Fixpoint enumerate_from {A} (start : Z) (l : list A) : list (Z * A) :=
  match l with
  | [] => []
  | x :: rest => (start, x) :: enumerate_from (start + 1) rest
  end.

(** A call the collector makes: a request, or an extraction from some
    document. *)
Definition collector_event (e : Event) : Prop :=
  (exists soup, e = Extracted (_extract_url soup))
  \/ exists target, e = Requested target.

(** The network never raises. *)
Definition always_answers (E : Env) : Prop :=
  forall k target headers timeout verify,
    raised (requests_get E k target headers timeout verify) = false.

(** Two paths part ways: neither leads to the other. *)
Definition apart (p q : path) : Prop :=
  ~ p `prefix_of` q /\ ~ q `prefix_of` p.

(** No regular file lies at [p] or at a directory above it. *)
Definition unobstructed (p : path) (fs : node) : Prop :=
  forall q : path, q `prefix_of` p -> resolve q fs <> Some File.

(** ** A small site, for concrete runs *)

Module Demo.

Definition seed_news : string := "https://otr-online.ru/news/".
Definition seed_society : string := "https://otr-online.ru/society/".
Definition url_first : string := "https://otr-online.ru/news/first".
Definition url_second : string := "https://otr-online.ru/news/second".

Definition html_news : string :=
  "<html><body><a href='/news/first'>First</a></body></html>".
Definition html_society : string :=
  "<html><body><a href='https://otr-online.ru/news/second'>Second</a></body></html>".
(** An article page without a title element. *)
Definition html_first : string :=
  "<html><body><div>Lead</div></body></html>".
Definition html_second : string :=
  "<html><head><title>Second</title></head><body><itemprop class='author'> Ann </itemprop><div>One</div><div>Two</div></body></html>".

(** An article page with a title, no author element and no block. *)
Definition url_third : string := "https://otr-online.ru/news/third".
Definition html_third : string :=
  "<html><head><title>Third</title></head><body><p>Text</p></body></html>".
(** A page the site does not have. *)
Definition url_gone : string := "https://otr-online.ru/news/gone".

Definition document (contents : list PageElement) : PageElement :=
  Tag "[document]" [] [Tag "html" [] contents].

Definition tree_news : PageElement :=
  document [Tag "body" [] [Tag "a" [("href", "/news/first")]
                             [NavigableString "First"]]].
Definition tree_society : PageElement :=
  document [Tag "body" []
              [Tag "a" [("href", "https://otr-online.ru/news/second")]
                 [NavigableString "Second"]]].
Definition tree_first : PageElement :=
  document [Tag "body" [] [Tag "div" [] [NavigableString "Lead"]]].
Definition tree_second : PageElement :=
  document [Tag "head" [] [Tag "title" [] [NavigableString "Second"]];
            Tag "body" []
              [Tag "itemprop" [("class", "author")] [NavigableString " Ann "];
               Tag "div" [] [NavigableString "One"];
               Tag "div" [] [NavigableString "Two"]]].

Definition tree_third : PageElement :=
  document [Tag "head" [] [Tag "title" [] [NavigableString "Third"]];
            Tag "body" [] [Tag "p" [] [NavigableString "Text"]]].

Definition page (status : Z) (html : string) : Response :=
  {| status_code := status; encoding := "ISO-8859-1"; decoded := fun _ => html |}.

(** Every page of the site answers 200; anything else is a 404. *)
Definition get (k : nat) (target : string) (headers : list (string * pyval))
  (timeout : Z) (verify : bool) : result Response :=
  if bool_decide (target = seed_news) then Return (page 200 html_news)
  else if bool_decide (target = seed_society) then Return (page 200 html_society)
  else if bool_decide (target = url_first) then Return (page 200 html_first)
  else if bool_decide (target = url_second) then Return (page 200 html_second)
  else if bool_decide (target = url_third) then Return (page 200 html_third)
  else Return (page 404 "").

Definition parse_html (html : string) : PageElement :=
  if bool_decide (html = html_news) then tree_news
  else if bool_decide (html = html_society) then tree_society
  else if bool_decide (html = html_first) then tree_first
  else if bool_decide (html = html_second) then tree_second
  else if bool_decide (html = html_third) then tree_third
  else document [].

Definition env : Env :=
  {| requests_get := get; lxml := parse_html;
     new_title := ""; new_author := []; new_text := "" |}.

(** The site when the network is down: every request raises. *)
Definition offline : Env :=
  {| requests_get := fun _ _ _ _ _ => Raise RequestException;
     lxml := parse_html;
     new_title := ""; new_author := []; new_text := "" |}.

Definition content (seeds : list string) (total : Z) : ConfigDTO :=
  {| dto_seed_urls := PyList (map PyStr seeds);
     dto_headers := PyDict [("User-Agent", PyStr "Mozilla/5.0")];
     dto_total_articles := PyInt total;
     dto_timeout := PyInt 5;
     dto_encoding := PyStr "utf-8";
     dto_headless_mode := PyBool true;
     dto_should_verify_certificate := PyBool true |}.

Definition config (seeds : list string) (total : Z) : Config :=
  {| get_seed_urls := seeds;
     get_num_articles := total;
     get_headers := [("User-Agent", PyStr "Mozilla/5.0")];
     get_encoding := "utf-8";
     get_timeout := 5;
     get_verify_certificate := true;
     get_headless_mode := true |}.

Definition start : State := {| urls := []; sent := 0; log := [] |}.

Definition assets : path := ["tmp"; "articles"].

(** A file system where [assets] holds the output of an earlier run. *)
Definition disk : node :=
  Dir {[ "tmp" := Dir {[ "articles" := Dir {[ "1_raw.txt" := File ]} ]} ]}.

(** A file system where a regular file has the name of the directory. *)
Definition disk_with_file : node :=
  Dir {[ "tmp" := Dir {[ "articles" := File ]} ]}.

(** A file system with a file beside the directory of an earlier run. *)
Definition disk_with_notes : node :=
  Dir {[ "tmp" := Dir (<["notes.txt" := File]>
                         {[ "articles" := Dir {[ "1_raw.txt" := File ]} ]}) ]}.

End Demo.

(** * Properties *)

(** ** Configuration validation *)

Lemma seed_urls_ok_is_list (v : pyval) : seed_urls_ok v = true -> is_list v = true.
Proof. destruct v; simpl; congruence. Qed.

(** What a configuration that passes validation looks like, check by
    check. *)
Lemma validate_Return (c : ConfigDTO) :
  _validate_config_content c = Return tt <->
  seed_urls_ok (dto_seed_urls c) = true
  /\ (is_int (dto_total_articles c) = true
      /\ is_bool (dto_total_articles c) = false
      /\ 0 <= int_value (dto_total_articles c) <= 150)
  /\ is_dict (dto_headers c) = true
  /\ is_str (dto_encoding c) = true
  /\ (is_int (dto_timeout c) = true /\ 0 < int_value (dto_timeout c) <= 60)
  /\ is_bool (dto_should_verify_certificate c) = true
  /\ is_bool (dto_headless_mode c) = true.
Proof.
  unfold _validate_config_content.
  destruct (seed_urls_ok (dto_seed_urls c)) eqn:Hseed;
    [rewrite (seed_urls_ok_is_list _ Hseed) | rewrite orb_true_r];
    simpl; [| intuition congruence].
  destruct (is_int (dto_total_articles c)); simpl; [| intuition congruence].
  destruct (is_bool (dto_total_articles c)); simpl; [intuition congruence |].
  destruct (Z.ltb_spec (int_value (dto_total_articles c)) 0);
    [split; [congruence | lia] |].
  destruct (Z.gtb_spec (int_value (dto_total_articles c)) 150);
    [split; [congruence | lia] |].
  destruct (is_dict (dto_headers c)); simpl; [| intuition congruence].
  destruct (is_str (dto_encoding c)); simpl; [| intuition congruence].
  destruct (is_int (dto_timeout c)); simpl; [| intuition congruence].
  destruct (Z.ltb_spec 0 (int_value (dto_timeout c))); simpl;
    [| split; [congruence | lia]].
  destruct (Z.leb_spec (int_value (dto_timeout c)) 60); simpl;
    [| split; [congruence | lia]].
  destruct (is_bool (dto_should_verify_certificate c)); simpl;
    [| intuition congruence].
  destruct (is_bool (dto_headless_mode c)); simpl; [| intuition congruence].
  intuition lia.
Qed.

(** A constructed [Config] has an article count between 0 and 150 and a
    timeout between 1 and 60. *)
Lemma Config_init_ranges (c : ConfigDTO) (config : Config) :
  Config_init c = Return config ->
  0 <= get_num_articles config <= 150 /\ 1 <= get_timeout config <= 60.
Proof.
  unfold Config_init. destruct (_validate_config_content c) as [[]|] eqn:Hv;
    [| discriminate].
  apply validate_Return in Hv. intros [= <-]. simpl. lia.
Qed.

Lemma seed_urls_not_ok (l : list pyval) (u : pyval) :
  u ∈ l -> seed_url_ok u = false -> seed_urls_ok (PyList l) = false.
Proof.
  intros Hin Hu. simpl. apply not_true_is_false. intros Hall.
  rewrite forallb_forall in Hall.
  rewrite (Hall u) in Hu; [discriminate | by apply list_elem_of_In].
Qed.

(** C6. Starting from a configuration that passes validation, changing one
    field to a violating value raises the fault named after that field: an
    article count above 150 (151 is the boundary) raises
    [NumberOfArticlesOutOfRangeError]; a timeout of 0 or below, or above 60
    (0 and 61 are the boundaries), raises [IncorrectTimeoutError]; a verify
    flag that is not a boolean raises [IncorrectVerifyError]; headers that
    are not a dictionary raise [IncorrectHeadersError]; an encoding that is
    not a string raises [IncorrectEncodingError]; seed URLs that are not a
    list, or a list with an element that is not a string starting with the
    origin prefix, raise [IncorrectSeedURLError].  Every count from 0 to 150
    and every timeout from 1 to 60 is accepted, the boundary values 0, 150,
    1 and 60 among them. *)
Theorem validation_boundaries (c : ConfigDTO) :
  _validate_config_content c = Return tt ->
  (forall n, 150 < n ->
     _validate_config_content (with_total_articles (PyInt n) c)
     = Raise NumberOfArticlesOutOfRangeError)
  /\ (forall t, t <= 0 \/ 60 < t ->
        _validate_config_content (with_timeout (PyInt t) c)
        = Raise IncorrectTimeoutError)
  /\ (forall v, is_bool v = false ->
        _validate_config_content (with_verify v c) = Raise IncorrectVerifyError)
  /\ (forall v, is_dict v = false ->
        _validate_config_content (with_headers v c)
        = Raise IncorrectHeadersError)
  /\ (forall v, is_str v = false ->
        _validate_config_content (with_encoding v c)
        = Raise IncorrectEncodingError)
  /\ (forall v, is_list v = false ->
        _validate_config_content (with_seed_urls v c)
        = Raise IncorrectSeedURLError)
  /\ (forall l u, u ∈ l -> seed_url_ok u = false ->
        _validate_config_content (with_seed_urls (PyList l) c)
        = Raise IncorrectSeedURLError)
  /\ (forall n, 0 <= n <= 150 ->
        _validate_config_content (with_total_articles (PyInt n) c) = Return tt)
  /\ (forall t, 1 <= t <= 60 ->
        _validate_config_content (with_timeout (PyInt t) c) = Return tt).
Proof.
  intros Hc. apply validate_Return in Hc.
  destruct Hc as (Hseed & (Hn1 & Hn2 & Hn3) & Hh & He & (Ht1 & Ht2) & Hv & Hm).
  pose proof (seed_urls_ok_is_list _ Hseed) as Hlist.
  repeat split.
  - intros n Hn. unfold _validate_config_content; simpl.
    rewrite Hseed, Hlist; simpl.
    destruct (Z.ltb_spec n 0); [lia |].
    destruct (Z.gtb_spec n 150); [reflexivity | lia].
  - intros t Ht. unfold _validate_config_content; simpl.
    rewrite Hseed, Hlist, Hn1, Hn2, Hh, He; simpl.
    destruct (Z.ltb_spec (int_value (dto_total_articles c)) 0); [lia |].
    destruct (Z.gtb_spec (int_value (dto_total_articles c)) 150); [lia |].
    destruct (Z.ltb_spec 0 t); simpl; [| reflexivity].
    destruct (Z.leb_spec t 60); simpl; [lia | reflexivity].
  - intros v Hb. unfold _validate_config_content; simpl.
    rewrite Hseed, Hlist, Hn1, Hn2, Hh, He, Ht1, Hb; simpl.
    destruct (Z.ltb_spec (int_value (dto_total_articles c)) 0); [lia |].
    destruct (Z.gtb_spec (int_value (dto_total_articles c)) 150); [lia |].
    destruct (Z.ltb_spec 0 (int_value (dto_timeout c))); [| lia].
    destruct (Z.leb_spec (int_value (dto_timeout c)) 60); [| lia].
    reflexivity.
  - intros v Hd. unfold _validate_config_content; simpl.
    rewrite Hseed, Hlist, Hn1, Hn2, Hd; simpl.
    destruct (Z.ltb_spec (int_value (dto_total_articles c)) 0); [lia |].
    destruct (Z.gtb_spec (int_value (dto_total_articles c)) 150); [lia |].
    reflexivity.
  - intros v Hs. unfold _validate_config_content; simpl.
    rewrite Hseed, Hlist, Hn1, Hn2, Hh, Hs; simpl.
    destruct (Z.ltb_spec (int_value (dto_total_articles c)) 0); [lia |].
    destruct (Z.gtb_spec (int_value (dto_total_articles c)) 150); [lia |].
    reflexivity.
  - intros v Hl. unfold _validate_config_content; simpl.
    rewrite Hl. reflexivity.
  - intros l u Hin Hu. unfold _validate_config_content.
    cbn [dto_seed_urls with_seed_urls].
    rewrite (seed_urls_not_ok l u Hin Hu). reflexivity.
  - intros n Hn. apply validate_Return. simpl.
    rewrite Hseed, Hh, He, Ht1, Hv, Hm. intuition lia.
  - intros t Ht. apply validate_Return. simpl.
    rewrite Hseed, Hn1, Hn2, Hh, He, Hv, Hm. intuition lia.
Qed.

(** The witness of [validation_boundaries]: the demo configuration with
    each boundary value in turn. *)
Lemma validation_boundaries_witness :
  let c := Demo.content [Demo.seed_news] 3 in
  _validate_config_content c = Return tt
  /\ _validate_config_content (with_total_articles (PyInt 151) c)
     = Raise NumberOfArticlesOutOfRangeError
  /\ _validate_config_content (with_timeout (PyInt 0) c)
     = Raise IncorrectTimeoutError
  /\ _validate_config_content (with_timeout (PyInt 61) c)
     = Raise IncorrectTimeoutError
  /\ _validate_config_content (with_verify (PyStr "yes") c)
     = Raise IncorrectVerifyError
  /\ _validate_config_content (with_headers (PyList []) c)
     = Raise IncorrectHeadersError
  /\ _validate_config_content (with_encoding (PyInt 8) c)
     = Raise IncorrectEncodingError
  /\ _validate_config_content (with_seed_urls (PyStr Demo.seed_news) c)
     = Raise IncorrectSeedURLError
  /\ _validate_config_content
       (with_seed_urls (PyList [PyStr Demo.seed_news; PyStr "https://example.org/"]) c)
     = Raise IncorrectSeedURLError
  /\ _validate_config_content (with_total_articles (PyInt 0) c) = Return tt
  /\ _validate_config_content (with_total_articles (PyInt 150) c) = Return tt
  /\ _validate_config_content (with_timeout (PyInt 1) c) = Return tt
  /\ _validate_config_content (with_timeout (PyInt 60) c) = Return tt.
Proof.
  intros c.
  destruct (validation_boundaries c eq_refl)
    as (Hcount & Htimeout & Hverify & Hheaders & Hencoding & Hnolist & Hurl
        & Hcounts & Htimeouts).
  split; [reflexivity |].
  split; [apply Hcount; lia |].
  split; [apply Htimeout; lia |].
  split; [apply Htimeout; lia |].
  split; [apply Hverify; reflexivity |].
  split; [apply Hheaders; reflexivity |].
  split; [apply Hencoding; reflexivity |].
  split; [apply Hnolist; reflexivity |].
  split; [apply (Hurl _ (PyStr "https://example.org/"));
          [apply list_elem_of_In; simpl; tauto | reflexivity] |].
  split; [apply Hcounts; lia |].
  split; [apply Hcounts; lia |].
  split; [apply Htimeouts; lia | apply Htimeouts; lia].
Defined.

(** ** Link extraction *)

(** [find] returns the first element with the name, in document order. *)
Lemma find_first (name : string) (soup e : PageElement) :
  find name soup = Some e ->
  exists before after,
    descendants soup = (before ++ e :: after)%list
    /\ has_name name e = true
    /\ Forall (fun d => has_name name d = false) before.
Proof.
  unfold find, find_all. generalize (descendants soup) as l.
  induction l as [|d l IH]; simpl; [discriminate |].
  destruct (has_name name d) eqn:Hd; simpl.
  - intros [= ->]. exists [], l. auto.
  - intros (before & after & -> & He & Hb)%IH.
    exists (d :: before), after. auto.
Qed.



(** ** URL collection *)

Lemma extractions_app (l1 l2 : list Event) :
  extractions (l1 ++ l2) = (extractions l1 + extractions l2)%nat.
Proof. unfold extractions. by rewrite List.filter_app, length_app. Qed.

Lemma discoveries_app (l1 l2 : list Event) :
  discoveries (l1 ++ l2) = (discoveries l1 ++ discoveries l2)%list.
Proof. apply omap_app. Qed.

Lemma add_new_prefix (l acc : list string) :
  acc `prefix_of` fold_left add_new l acc.
Proof.
  revert acc. induction l as [|x l IH]; intros acc; simpl; [done |].
  etrans; [| apply IH]. unfold add_new. case_bool_decide; [done |].
  by apply prefix_app_r.
Qed.

Lemma add_new_NoDup (l acc : list string) :
  NoDup acc -> NoDup (fold_left add_new l acc).
Proof.
  revert acc. induction l as [|x l IH]; intros acc Hacc; simpl; [done |].
  apply IH. unfold add_new. case_bool_decide; [done |].
  apply NoDup_app. split_and!; [done | | apply NoDup_singleton].
  intros y Hy ->%list_elem_of_singleton. contradiction.
Qed.

Lemma add_new_known (link : string) (l acc : list string) :
  Forall (eq link) l -> link ∈ acc -> fold_left add_new l acc = acc.
Proof.
  induction 1 as [|x l <- _ IH]; intros Hin; simpl; [done |].
  unfold add_new at 2. rewrite bool_decide_eq_true_2 by done. by apply IH.
Qed.

(** When every discovery is the same link, at most that link is added. *)
Lemma add_new_single (link : string) (l acc : list string) :
  Forall (eq link) l ->
  fold_left add_new l acc = acc \/ fold_left add_new l acc = (acc ++ [link])%list.
Proof.
  destruct 1 as [|x l <- Hl]; simpl; [by left |].
  unfold add_new at 2 4. case_bool_decide as Hin.
  - left. by apply (add_new_known link).
  - right. apply (add_new_known link); [done |]. set_solver.
Qed.

Lemma reaches_refl config st : reaches config st [] st.
Proof. unfold reaches. rewrite app_nil_r. simpl. split_and!; [done.. | lia]. Qed.

Lemma reaches_trans config st1 ev1 st2 ev2 st3 :
  reaches config st1 ev1 st2 -> reaches config st2 ev2 st3 ->
  reaches config st1 (ev1 ++ ev2) st3.
Proof.
  intros (Hl1 & Hu1 & Hc1) (Hl2 & Hu2 & Hc2). split_and!; [| | lia].
  - by rewrite Hl2, Hl1, app_assoc.
  - by rewrite Hu2, Hu1, discoveries_app, fold_left_app.
Qed.

(** The loop, one iteration unfolded. *)
Lemma attempts_loop_step config soup max att st :
  attempts_loop config soup max att st
  = if (len (urls st) <? get_num_articles config) && (att <? max)
    then attempts_loop config soup max (att + 1) (attempt soup st)
    else (st, att).
Proof.
  funelim (attempts_loop config soup max att st).
  - clear H H0. rewrite e. unfold attempt. cbn zeta.
    destruct (bool_decide (_extract_url soup = "EXTRACTION ERROR")); reflexivity.
  - rewrite e. reflexivity.
Qed.

(** One attempt: one extraction is recorded and the link it returned is
    added when it is a link and is new. *)
Lemma attempt_reaches config soup st :
  len (urls st) < get_num_articles config ->
  reaches config st [Extracted (_extract_url soup)] (attempt soup st)
  /\ sent (attempt soup st) = sent st
  /\ len (urls (attempt soup st)) <= get_num_articles config.
Proof.
  intros Hlen. unfold reaches, attempt, discoveries, add_new, len in *.
  cbn zeta. cbn [omap list_omap].
  destruct (bool_decide (_extract_url soup = "EXTRACTION ERROR")); simpl;
    [split_and!; try done; lia |].
  destruct (bool_decide (_extract_url soup ∈ urls st)); simpl;
    rewrite ?length_app; simpl; split_and!; try done; lia.
Qed.

(** The [while] loop makes [k] attempts, all on the same document, and
    leaves with [url_attempts] raised by [k]; it stops at the latest when
    [url_attempts] reaches [max_url_attempts]. *)
Lemma attempts_loop_reaches config soup max att st :
  exists k : nat,
    snd (attempts_loop config soup max att st) = att + Z.of_nat k
    /\ (k = 0%nat \/ att + Z.of_nat k <= max)
    /\ reaches config st (replicate k (Extracted (_extract_url soup)))
         (fst (attempts_loop config soup max att st))
    /\ sent (fst (attempts_loop config soup max att st)) = sent st
    /\ (len (urls (fst (attempts_loop config soup max att st)))
          <? get_num_articles config)
       && (att + Z.of_nat k <? max) = false.
Proof.
  remember (Z.to_nat (max - att)) as n eqn:Hn.
  revert att st Hn. induction n as [n IH] using lt_wf_ind. intros att st Hn.
  rewrite attempts_loop_step.
  destruct ((len (urls st) <? get_num_articles config) && (att <? max)) eqn:Hc.
  - apply andb_true_iff in Hc as [Hlen%Z.ltb_lt Hatt%Z.ltb_lt].
    destruct (attempt_reaches config soup st Hlen) as (Hr & Hs & Hcap).
    destruct (IH (Z.to_nat (max - (att + 1))) ltac:(lia) (att + 1)
                 (attempt soup st) eq_refl)
      as (k & Hk & Hbound & Hr' & Hs' & Hexit).
    exists (S k). rewrite Hk, Hs', Hs.
    replace (att + Z.of_nat (S k)) with (att + 1 + Z.of_nat k) by lia.
    split_and!; [done | right; lia | | done | done].
    destruct (reaches_trans _ _ _ _ _ _ Hr Hr') as (Hl & Hu & Hc2).
    split_and!; [done.. |]. destruct Hr' as (_ & _ & Hc3). lia.
  - exists 0%nat. simpl. rewrite Z.add_0_r.
    split_and!; [done | by left | apply reaches_refl | done | done].
Qed.

Lemma make_request_reaches E config target st :
  reaches config st [Requested target] (fst (make_request E target config st))
  /\ sent (fst (make_request E target config st)) = S (sent st).
Proof.
  unfold make_request, reaches.
  destruct (requests_get E _ _ _ _ _); simpl; split_and!; try done; lia.
Qed.

(** The inner loop, its first round unfolded. *)
Lemma inner_for_cons E config soup max i rest att st :
  inner_for E config soup max (i :: rest) att st
  = match make_request E i config st with
    | (st1, Return query) =>
        if negb (ok query) then inner_for E config soup max rest att st1
        else
          let '(st2, att2) := attempts_loop config soup max att st1 in
          if len (urls st2) >=? get_num_articles config
          then (st2, Return att2)
          else inner_for E config soup max rest att2 st2
    | (st1, Raise e) => (st1, Raise e)
    end.
Proof.
  cbn [inner_for]. unfold mbind, M_bind at 1.
  destruct (make_request E i config st) as [st1 [query|e]]; [| done].
  destruct (negb (ok query)); [done |].
  unfold M_bind, while_attempts, get_urls.
  destruct (attempts_loop config soup max att st1) as [st2 att2].
  by destruct (len (urls st2) >=? get_num_articles config).
Qed.

Lemma extractions_replicate (k : nat) (link : string) :
  extractions (replicate k (Extracted link)) = k.
Proof. unfold extractions. induction k; simpl; congruence. Qed.

Lemma seed_event_replicate (k : nat) (link : string) :
  Forall (seed_event link) (replicate k (Extracted link)).
Proof. apply Forall_replicate. by left. Qed.

(** The work on one seed document: every extraction returns the link of
    that document, and [url_attempts] counts the extractions and stays
    below [max_url_attempts]. *)
Lemma inner_for_reaches E config soup max seeds att st :
  exists events,
    reaches config st events (fst (inner_for E config soup max seeds att st))
    /\ Forall (seed_event (_extract_url soup)) events
    /\ att + Z.of_nat (extractions events) <= Z.max att max
    /\ (forall att',
          snd (inner_for E config soup max seeds att st) = Return att' ->
          att' = att + Z.of_nat (extractions events)).
Proof.
  revert att st. induction seeds as [|i rest IH]; intros att st.
  { exists []. change (extractions []) with 0%nat. cbn [inner_for].
    split_and!; [apply reaches_refl | done | lia |].
    intros att' [= <-]. lia. }
  rewrite inner_for_cons.
  destruct (make_request_reaches E config i st) as [Hreq _].
  destruct (make_request E i config st) as [st1 [query|e]]; simpl in Hreq.
  2:{ exists [Requested i]. change (extractions [Requested i]) with 0%nat.
      split_and!; [done | | lia | done].
      apply Forall_singleton. right. by exists i. }
  assert (Forall (seed_event (_extract_url soup)) [Requested i]) as Hev
    by (apply Forall_singleton; right; by exists i).
  destruct (negb (ok query)).
  { destruct (IH att st1) as (events & Hr & Hall & Hle & Hatt).
    exists ([Requested i] ++ events)%list.
    rewrite extractions_app. change (extractions [Requested i]) with 0%nat.
    split_and!; [by eapply reaches_trans | by apply Forall_app | lia | done]. }
  destruct (attempts_loop_reaches config soup max att st1)
    as (k & Hk & Hbound & Hloop & _ & _).
  destruct (attempts_loop config soup max att st1) as [st2 att2].
  simpl in Hk, Hloop. subst att2.
  pose proof (reaches_trans _ _ _ _ _ _ Hreq Hloop) as Hr2.
  pose proof (seed_event_replicate k (_extract_url soup)) as Hrep.
  destruct (len (urls st2) >=? get_num_articles config).
  { exists ([Requested i] ++ replicate k (Extracted (_extract_url soup)))%list.
    rewrite extractions_app, extractions_replicate.
    change (extractions [Requested i]) with 0%nat. cbn [fst snd].
    split_and!; [done | by apply Forall_app | lia |].
    intros att' [= <-]. lia. }
  destruct (IH (att + Z.of_nat k) st2) as (events & Hr & Hall & Hle & Hatt).
  exists (([Requested i] ++ replicate k (Extracted (_extract_url soup)))
            ++ events)%list.
  rewrite !extractions_app, extractions_replicate.
  change (extractions [Requested i]) with 0%nat.
  split_and!; [by eapply reaches_trans | by repeat apply Forall_app_2 | lia |].
  intros att' Hret. rewrite (Hatt att' Hret). lia.
Qed.

(** One seed: at most [2 * num_articles] extractions, whatever happened at
    the seeds before it, and at most one link added. *)
Lemma visit_seed_reaches E config seed_url st :
  exists events,
    reaches config st events (fst (visit_seed E config seed_url st))
    /\ Z.of_nat (extractions events) <= Z.max 0 (2 * get_num_articles config)
    /\ exists link, Forall (eq link) (discoveries events).
Proof.
  unfold visit_seed, mbind, M_bind.
  destruct (make_request_reaches E config seed_url st) as [Hreq _].
  destruct (make_request E seed_url config st) as [st1 [response|e]];
    simpl in Hreq.
  2:{ exists [Requested seed_url].
      change (extractions [Requested seed_url]) with 0%nat.
      split_and!; [done | lia |]. by exists "". }
  destruct (negb (ok response) || (status_code response >? 400)).
  { exists [Requested seed_url].
    change (extractions [Requested seed_url]) with 0%nat.
    split_and!; [done | lia |]. by exists "". }
  cbn zeta.
  destruct (inner_for_reaches E config (lxml E (text response))
              (get_num_articles config * 2) (get_search_urls config) 0 st1)
    as (events & Hr & Hall & Hle & _).
  exists ([Requested seed_url] ++ events)%list.
  rewrite extractions_app. change (extractions [Requested seed_url]) with 0%nat.
  assert (reaches config st ([Requested seed_url] ++ events)
            (inner_for E config (lxml E (text response))
               (get_num_articles config * 2) (get_search_urls config) 0 st1).1)
    as Hr' by by eapply reaches_trans.
  split_and!.
  - by destruct (inner_for _ _ _ _ _ _ _) as [st2 [att|e]].
  - lia.
  - exists (_extract_url (lxml E (text response))).
    rewrite discoveries_app. simpl. clear -Hall.
    induction Hall as [|e events He _ IH]; [done |].
    unfold discoveries in *. cbn [omap list_omap].
    destruct He as [-> | [target ->]]; [| done].
    case_bool_decide; [done |]. by constructor.
Qed.

Lemma for_each_cons {A} (body : A -> M unit) x rest st :
  for_each (x :: rest) body st
  = match body x st with
    | (st1, Return _) => for_each rest body st1
    | (st1, Raise e) => (st1, Raise e)
    end.
Proof. reflexivity. Qed.

(** A loop whose every round makes at most [bound] extractions makes at
    most [bound] of them per element. *)
Lemma for_each_reaches {A} config (body : A -> M unit) (bound : Z) l st :
  0 <= bound ->
  (forall x st0, exists events,
      reaches config st0 events (fst (body x st0))
      /\ Z.of_nat (extractions events) <= bound) ->
  exists events,
    reaches config st events (fst (for_each l body st))
    /\ Z.of_nat (extractions events) <= len l * bound.
Proof.
  intros Hbound Hbody. revert st. induction l as [|x rest IH]; intros st.
  { exists []. change (extractions []) with 0%nat. unfold len. simpl.
    split; [apply reaches_refl | lia]. }
  rewrite for_each_cons.
  destruct (Hbody x st) as (ev1 & Hr1 & Hle1).
  destruct (body x st) as [st1 [[]|e]]; simpl in Hr1.
  - destruct (IH st1) as (ev2 & Hr2 & Hle2).
    exists (ev1 ++ ev2)%list. rewrite extractions_app.
    split; [by eapply reaches_trans |]. unfold len in *. simpl length. nia.
  - exists ev1. split; [done |]. unfold len. simpl length. nia.
Qed.

Lemma find_articles_reaches E config st :
  exists events,
    reaches config st events (fst (find_articles E config st))
    /\ Z.of_nat (extractions events)
       <= len (get_seed_urls config) * Z.max 0 (2 * get_num_articles config).
Proof.
  apply for_each_reaches; [lia |]. intros seed_url st0.
  destruct (visit_seed_reaches E config seed_url st0) as (events & ? & ? & _).
  by exists events.
Qed.

Lemma reaches_keeps config st events st' :
  reaches config st events st' ->
  urls st `prefix_of` urls st'
  /\ (NoDup (urls st) -> NoDup (urls st'))
  /\ (len (urls st) <= get_num_articles config ->
      len (urls st') <= get_num_articles config).
Proof.
  intros (_ & Hu & Hcap). rewrite Hu. split_and!.
  - apply add_new_prefix.
  - apply add_new_NoDup.
  - rewrite <- Hu. lia.
Qed.

(** C1, as amended.  The budget of [2 * num_articles] extraction attempts
    is a budget per seed: [url_attempts] starts again at 0 for every seed
    whose page could be fetched.  So a visit of one seed makes at most
    [2 * num_articles] attempts (none when the count is not positive), and
    the whole run at most that many for each seed.  The [while] loop is
    always left, with its condition false, after at most
    [max_url_attempts - url_attempts] attempts, whether or not the count was
    reached; [find_articles] is a total function of the state it starts in
    and of the answers of the network. *)
Theorem attempts_budget (E : Env) (config : Config) :
  (forall soup max att st,
      exists k : nat,
        log (fst (attempts_loop config soup max att st))
        = (log st ++ replicate k (Extracted (_extract_url soup)))%list
        /\ snd (attempts_loop config soup max att st) = att + Z.of_nat k
        /\ Z.of_nat k <= Z.max 0 (max - att)
        /\ (len (urls (fst (attempts_loop config soup max att st)))
              <? get_num_articles config)
           && (snd (attempts_loop config soup max att st) <? max) = false)
  /\ (forall seed_url st,
        exists events,
          log (fst (visit_seed E config seed_url st)) = (log st ++ events)%list
          /\ Z.of_nat (extractions events)
             <= Z.max 0 (2 * get_num_articles config))
  /\ (forall st,
        exists events,
          log (fst (find_articles E config st)) = (log st ++ events)%list
          /\ Z.of_nat (extractions events)
             <= len (get_seed_urls config)
                * Z.max 0 (2 * get_num_articles config)).
Proof.
  split_and!.
  - intros soup max att st.
    destruct (attempts_loop_reaches config soup max att st)
      as (k & Hk & Hbound & (Hlog & _) & _ & Hexit).
    exists k. rewrite Hk. split_and!; [done | done | lia | done].
  - intros seed_url st.
    destruct (visit_seed_reaches E config seed_url st)
      as (events & (Hlog & _) & Hle & _).
    by exists events.
  - intros st.
    destruct (find_articles_reaches E config st) as (events & (Hlog & _) & Hle).
    by exists events.
Qed.

(** The counterexample to C1 as stated: two seeds and a count of 3, a
    valid configuration; the run makes 12 extraction attempts, 6 for each
    seed, where [2 * num_articles] is 6. *)
Lemma attempts_budget_exceeded :
  let seeds := [Demo.seed_news; Demo.seed_society] in
  Config_init (Demo.content seeds 3) = Return (Demo.config seeds 3)
  /\ 2 * get_num_articles (Demo.config seeds 3) = 6
  /\ extractions
       (log (fst (find_articles Demo.env (Demo.config seeds 3) Demo.start)))
     = 12%nat
  /\ urls (fst (find_articles Demo.env (Demo.config seeds 3) Demo.start))
     = [Demo.url_first; Demo.url_second].
Proof. vm_compute. repeat split; reflexivity. Qed.

(** C2. While one parsed seed document is worked on, every extraction
    attempt returns the same value, the one [_extract_url] gives for the
    first link of that document; so the document adds at most that one URL
    to the collected ones, whatever the number of attempts.  The same holds
    for the visit of a seed as a whole. *)
Theorem one_url_per_document (E : Env) (config : Config) :
  (forall soup max seeds att st,
      let st' := fst (inner_for E config soup max seeds att st) in
      (exists events,
          log st' = (log st ++ events)%list
          /\ forall link, Extracted link ∈ events -> link = _extract_url soup)
      /\ (urls st' = urls st \/ urls st' = (urls st ++ [_extract_url soup])%list))
  /\ (forall seed_url st,
        let st' := fst (visit_seed E config seed_url st) in
        urls st' = urls st \/ exists link, urls st' = (urls st ++ [link])%list).
Proof.
  split.
  - intros soup max seeds att st st'. subst st'.
    destruct (inner_for_reaches E config soup max seeds att st)
      as (events & (Hlog & Hurls & _) & Hall & _).
    split.
    + exists events. split; [done |]. intros link Hin.
      rewrite Forall_forall in Hall.
      destruct (Hall _ Hin) as [[= ->] | [target [=]]]. done.
    + rewrite Hurls. apply add_new_single. clear -Hall.
      induction Hall as [|e events He _ IH]; [done |].
      unfold discoveries in *. cbn [omap list_omap].
      destruct He as [-> | [target ->]]; [| done].
      case_bool_decide; [done |]. by constructor.
  - intros seed_url st st'. subst st'.
    destruct (visit_seed_reaches E config seed_url st)
      as (events & (_ & Hurls & _) & _ & link & Hall).
    rewrite Hurls.
    destruct (add_new_single link _ (urls st) Hall) as [-> | ->];
      [by left | right; by exists link].
Qed.

(** C3. For a configured count that is not negative, as the count of
    every constructed [Config] is ([Config_init_ranges]), the collected URLs
    of a run never exceed the configured count, hold no URL twice, and are
    the links found, each at the place of its first discovery.  Every stage of the collection (the [while] loop, the
    visit of a seed, the whole of [find_articles]) only adds at the end:
    what was collected before is a prefix of what is collected after, and
    the absence of duplicates and the bound are kept. *)
Theorem collected_urls_invariant (E : Env) (config : Config) (st : State) :
  0 <= get_num_articles config ->
  let st' := fst (find_articles E config (Crawler_init st)) in
  (len (urls st') <= get_num_articles config
   /\ NoDup (urls st')
   /\ exists events,
       log st' = (log st ++ events)%list
       /\ urls st' = first_occurrences (discoveries events))
  /\ (forall soup max att,
        keeps_collection config (fun st0 => fst (attempts_loop config soup max att st0)))
  /\ (forall seed_url,
        keeps_collection config (fun st0 => fst (visit_seed E config seed_url st0)))
  /\ keeps_collection config (fun st0 => fst (find_articles E config st0)).
Proof.
  intros Hnum st'. subst st'. split; [| split; [| split]].
  - destruct (find_articles_reaches E config (Crawler_init st))
      as (events & Hr & _).
    destruct (reaches_keeps _ _ _ _ Hr) as (_ & Hnodup & Hcap).
    destruct Hr as (Hlog & Hurls & _).
    split_and!.
    + apply Hcap. unfold len. simpl. lia.
    + apply Hnodup. simpl. constructor.
    + by exists events.
  - intros soup max att st0.
    destruct (attempts_loop_reaches config soup max att st0)
      as (k & _ & _ & Hr & _).
    by apply reaches_keeps in Hr.
  - intros seed_url st0.
    destruct (visit_seed_reaches E config seed_url st0) as (events & Hr & _).
    by apply reaches_keeps in Hr.
  - intros st0.
    destruct (find_articles_reaches E config st0) as (events & Hr & _).
    by apply reaches_keeps in Hr.
Qed.

(** The witness of [collected_urls_invariant]: the demo site with two
    seeds and a count of 3. *)
Lemma collected_urls_invariant_witness :
  let seeds := [Demo.seed_news; Demo.seed_society] in
  let config := Demo.config seeds 3 in
  let st' := fst (find_articles Demo.env config (Crawler_init Demo.start)) in
  Config_init (Demo.content seeds 3) = Return config
  /\ 0 <= get_num_articles config
  /\ len (urls st') <= get_num_articles config
  /\ NoDup (urls st').
Proof.
  intros seeds config st'. split; [reflexivity |].
  assert (0 <= get_num_articles config) as Hnum by (simpl; lia).
  destruct (collected_urls_invariant Demo.env config Demo.start Hnum)
    as ((Hlen & Hnodup & _) & _).
  exact (conj Hnum (conj Hlen Hnodup)).
Defined.

(** ** Extraction *)

(** [parse], unfolded: the state after its two calls, and what it returns
    for each answer of the network. *)
Lemma parse_unfold E self st :
  parse E self st
  = ({| urls := urls st; sent := S (sent st);
        log := (log st ++ [Parsing (full_url self) (parser_article_id self);
                           Requested (full_url self)])%list |},
     match answer E (parser_config self) (full_url self) st with
     | Raise e => Raise e
     | Return response =>
         if ok response
         then
           let soup := lxml E (decoded response "utf-8") in
           match _fill_article_with_meta_information soup
                   (_fill_article_with_text soup (article self)) with
           | Return a => Return (AnArticle a)
           | Raise e => Raise e
           end
         else Return (AnArticle (article self))
     end).
Proof.
  unfold parse, answer, mbind, M_bind, record, make_request, lift. cbn.
  rewrite <- app_assoc. cbn.
  destruct (requests_get E _ _ _ _ _) as [response|e]; [| done].
  change (ok (set_encoding "utf-8"
                (set_encoding (get_encoding (parser_config self)) response)))
    with (ok response).
  destruct (ok response); [| done]. cbn.
  by destruct (_fill_article_with_meta_information _ _).
Qed.

Lemma fill_text_sentinel soup a :
  find_all "div" soup = [] ->
  _fill_article_with_text soup a = set_text "NOT FOUND" a.
Proof. unfold _fill_article_with_text. by intros ->. Qed.

Lemma fill_text_author soup a :
  author (_fill_article_with_text soup a) = author a
  /\ title (_fill_article_with_text soup a) = title a.
Proof. unfold _fill_article_with_text. by destruct (find_all "div" soup). Qed.

(** What [_fill_article_with_meta_information] does to a record: it raises
    exactly when the title element is absent, and never touches the
    text. *)
Lemma fill_meta_spec soup a :
  match find "title" soup with
  | None => _fill_article_with_meta_information soup a = Raise AttributeError
  | Some t =>
      exists a',
        _fill_article_with_meta_information soup a = Return a'
        /\ title a' = get_text t
        /\ article_text a' = article_text a
        /\ (find_class "itemprop" "author" soup = None ->
            author a' = ["NOT FOUND"])
  end.
Proof.
  unfold _fill_article_with_meta_information.
  destruct (find "title" soup) as [t|]; [| done].
  destruct (find_class "itemprop" "author" soup); eexists; by split_and!.
Qed.

(** C5. For an article fetched with success: when the document has no
    author element the record [parse] returns has the author
    [["NOT FOUND"]], when it has no block the record has the text
    ["NOT FOUND"]; a record is returned whenever the document has a title
    element.  For a fetch without success [parse] returns the record of the
    parser as the constructor left it, its title, author and text being
    those the [Article] constructor sets. *)
Theorem parse_sentinels (E : Env) (self : HTMLParser) (st : State)
  (response : Response) :
  answer E (parser_config self) (full_url self) st = Return response ->
  let soup := lxml E (decoded response "utf-8") in
  (ok response = true ->
     (forall a,
         snd (parse E self st) = Return (AnArticle a) ->
         (find_class "itemprop" "author" soup = None -> author a = ["NOT FOUND"])
         /\ (find_all "div" soup = [] -> article_text a = "NOT FOUND"))
     /\ (find "title" soup <> None ->
         exists a, snd (parse E self st) = Return (AnArticle a)))
  /\ (ok response = false ->
      snd (parse E self st) = Return (AnArticle (article self)))
  /\ (forall full_url article_id config,
        let a := article (HTMLParser_init E full_url article_id config) in
        title a = new_title E /\ author a = new_author E
        /\ article_text a = new_text E).
Proof.
  intros Hanswer soup. rewrite parse_unfold, Hanswer. cbn [snd].
  split_and!; [| by intros -> | done].
  intros ->. fold soup.
  pose proof (fill_meta_spec soup (_fill_article_with_text soup (article self)))
    as Hmeta.
  destruct (find "title" soup) as [t|].
  - destruct Hmeta as (a' & -> & _ & Htext & Hauthor). split.
    + intros a [= <-]. split; [done |].
      intros Hdiv. rewrite Htext, fill_text_sentinel; done.
    + intros _. by exists a'.
  - rewrite Hmeta. split; [intros a [=] | by intros []].
Qed.

(** The witness of [parse_sentinels]: the third article of the demo site
    has a title, no author element and no block. *)
Lemma parse_sentinels_witness :
  let config := Demo.config [Demo.seed_news] 3 in
  let self := HTMLParser_init Demo.env Demo.url_third 1 config in
  exists a,
    snd (parse Demo.env self Demo.start) = Return (AnArticle a)
    /\ author a = ["NOT FOUND"]
    /\ article_text a = "NOT FOUND".
Proof.
  intros config self.
  destruct (parse_sentinels Demo.env self Demo.start
              (Demo.page 200 Demo.html_third) eq_refl) as ((Hret & Hex) & _).
  { reflexivity. }
  destruct Hex as [a Ha]; [discriminate |].
  exists a. destruct (Hret a Ha) as [Hauthor Htext].
  split_and!; [exact Ha | by apply Hauthor | by apply Htext].
Defined.

(** Whatever [parse] returns is an [Article]. *)
Lemma parse_returns_article E self st v :
  snd (parse E self st) = Return v -> exists a, v = AnArticle a.
Proof.
  rewrite parse_unfold. cbn [snd].
  destruct (answer E _ _ st) as [response|e]; [| done].
  destruct (ok response); [| intros [= <-]; by eexists].
  cbn zeta. destruct (_fill_article_with_meta_information _ _); [| done].
  intros [= <-]. by eexists.
Qed.

(** ** The driver *)

Lemma enumerate_from_imap {A} (start : Z) (l : list A) :
  imap (fun i x => (start + Z.of_nat i, x)) l = enumerate_from start l.
Proof.
  revert start. induction l as [|x l IH]; intros start; [done |].
  cbn [imap enumerate_from]. rewrite Z.add_0_r. f_equal.
  rewrite <- IH. apply imap_ext. intros i y _. simpl. f_equal. lia.
Qed.

Lemma enumerate_enumerate_from {A} (l : list A) :
  enumerate l = enumerate_from 0 l.
Proof. unfold enumerate. by rewrite <- enumerate_from_imap. Qed.

Lemma enumerate_from_length {A} (start : Z) (l : list A) :
  length (enumerate_from start l) = length l.
Proof. revert start. induction l; intros; simpl; [done | by rewrite IHl]. Qed.

Lemma enumerate_from_lookup {A} (start : Z) (l : list A) (k : nat) :
  enumerate_from start l !! k = (fun x => (start + Z.of_nat k, x)) <$> l !! k.
Proof.
  revert start k. induction l as [|x l IH]; intros start [|k]; simpl; [done..| |].
  - by rewrite Z.add_0_r.
  - rewrite IH. destruct (l !! k); simpl; [| done]. do 2 f_equal. lia.
Qed.

(** One round of the loop of [main]. *)
Lemma process_url_unfold E config index target st :
  process_url E config (index, target) st
  = let self := HTMLParser_init E target (index + 1) config in
    match parse E self st with
    | (st1, Return (AnArticle a)) =>
        ({| urls := urls st1; sent := sent st1;
            log := (log st1 ++ [ToRaw a; ToMeta a])%list |}, Return tt)
    | (st1, Return _) => (st1, Return tt)
    | (st1, Raise e) => (st1, Raise e)
    end.
Proof.
  unfold process_url, mbind, M_bind. cbn zeta.
  destruct (parse E _ st) as [st1 [[a| |]|e]]; try done.
  unfold record, logged. cbn. by rewrite <- app_assoc.
Qed.

(** The rounds of the loop of [main] from the item numbered [start]: the
    log gains the calls of the rounds one after the other, a round that
    raises is the last one, and every record persisted is one [parse]
    returned for the URL of its round. *)
Lemma process_from E config (start : Z) (l : list string) (st : State) :
  let r := for_each (enumerate_from start l) (process_url E config) st in
  exists records : list Article,
    log (fst r)
    = (log st ++ flat_map round_of
                   (zip (enumerate_from start l) (outcomes_of records (snd r))))%list
    /\ urls (fst r) = urls st
    /\ (if raised (snd r) then (length records < length l)%nat
        else length records = length l)
    /\ (forall (k : nat) a,
          records !! k = Some a ->
          exists target st_k,
            l !! k = Some target
            /\ snd (parse E (HTMLParser_init E target (start + Z.of_nat k + 1) config)
                      st_k)
               = Return (AnArticle a)).
Proof.
  revert start st. induction l as [|target l IH]; intros start st r; subst r.
  { exists []. cbn. rewrite app_nil_r. split_and!; try done. }
  cbn [enumerate_from]. rewrite for_each_cons, process_url_unfold. cbn zeta.
  pose proof (parse_returns_article E
                (HTMLParser_init E target (start + 1) config) st) as Hart.
  pose proof (parse_unfold E (HTMLParser_init E target (start + 1) config) st)
    as Hparse.
  destruct (parse E _ st) as [st1 [v|e]].
  2:{ exists []. injection Hparse as -> _. unfold outcomes_of.
      cbn [fst snd raised map app zip_with log urls length].
      rewrite zip_with_nil_r. cbn [flat_map round_of app].
      split_and!; try done; lia. }
  destruct (Hart v eq_refl) as [a ->]. clear Hart.
  injection Hparse as Hst1 Hret.
  set (st2 := {| urls := urls st1; sent := sent st1;
                 log := (log st1 ++ [ToRaw a; ToMeta a])%list |}).
  destruct (IH (start + 1) st2) as (records & Hlog & Hurls & Hlen & Hrec).
  exists (a :: records). rewrite Hlog, Hurls.
  unfold outcomes_of. cbn [map app zip zip_with flat_map round_of].
  subst st2 st1. cbn [log urls]. split_and!.
  - by rewrite <- !app_assoc.
  - done.
  - destruct (raised _); simpl; lia.
  - intros [|k] a' Hk.
    + injection Hk as <-. exists target, st. split; [done |].
      rewrite parse_unfold. cbn [snd]. rewrite Z.add_0_r.
      symmetry. exact Hret.
    + destruct (Hrec k a' Hk) as (target' & st_k & Hl & Hp).
      exists target', st_k. split; [done |].
      rewrite <- Hp. do 4 f_equal. lia.
Qed.

Lemma parsings_app (l1 l2 : list Event) :
  parsings (l1 ++ l2) = (parsings l1 ++ parsings l2)%list.
Proof. apply omap_app. Qed.

Lemma persistence_app (l1 l2 : list Event) :
  persistence (l1 ++ l2) = (persistence l1 ++ persistence l2)%list.
Proof. apply List.filter_app. Qed.

(** What the rounds of a run show of the parsers and of the persistence
    calls: the parsers are built for the URLs in their order, each with its
    position counted from 1 as id, and the persistence calls are [to_raw]
    then [to_meta] for each record in turn. *)
Lemma rounds_projections (start : Z) (l : list string)
  (records : list Article) (last : list (option Article)) :
  (last = [] \/ last = [None]) ->
  (length records + length last <= length l)%nat ->
  let events :=
    flat_map round_of (zip (enumerate_from start l) (map Some records ++ last)) in
  parsings events
  = map (fun x : Z * string => (x.2, x.1 + 1))
        (take (length records + length last) (enumerate_from start l))
  /\ persistence events = persist_all records.
Proof.
  revert start records.
  induction l as [|target l IH]; intros start records Hlast Hlen events;
    subst events.
  { destruct records; [| simpl in Hlen; lia].
    destruct Hlast as [-> | ->]; [done | simpl in Hlen; lia]. }
  destruct records as [|a records].
  - destruct Hlast as [-> | ->]; [done |].
    cbn [map app enumerate_from zip_with length Nat.add take].
    rewrite zip_with_nil_r, take_0. done.
  - cbn [map app enumerate_from zip_with length Nat.add take flat_map].
    rewrite parsings_app, persistence_app.
    destruct (IH (start + 1) records Hlast) as [-> ->];
      [simpl in Hlen; lia |].
    done.
Qed.

(** The loop of [main], as the rounds it makes. *)
Lemma process_urls_rounds (E : Env) (config : Config) (st : State) :
  let r := process_urls E config st in
  exists records : list Article,
    let events :=
      flat_map round_of
        (zip (enumerate (urls st)) (outcomes_of records (snd r))) in
    log (fst r) = (log st ++ events)%list
    /\ (if raised (snd r) then (length records < length (urls st))%nat
        else length records = length (urls st))
    /\ parsings events
       = map (fun x : Z * string => (x.2, x.1 + 1))
             (take (length (outcomes_of records (snd r))) (enumerate (urls st)))
    /\ persistence events = persist_all records
    /\ (forall (k : nat) a,
          records !! k = Some a ->
          exists target st_k,
            urls st !! k = Some target
            /\ snd (parse E (HTMLParser_init E target (Z.of_nat k + 1) config)
                      st_k)
               = Return (AnArticle a)).
Proof.
  unfold process_urls, mbind, M_bind, get_urls. cbn zeta.
  rewrite enumerate_enumerate_from.
  destruct (process_from E config 0 (urls st) st)
    as (records & Hlog & _ & Hlen & Hrec).
  set (r := for_each _ _ st) in *.
  exists records.
  set (last := if raised r.2 then [None] else [] : list (option Article)).
  assert (length records + length last <= length (urls st))%nat as Hle
    by (subst last; destruct (raised r.2); simpl; lia).
  destruct (rounds_projections 0 (urls st) records last) as [Hpars Hpers];
    [subst last; destruct (raised r.2); auto | done |].
  split_and!; [done | done | | done | done].
  unfold outcomes_of at 2. by rewrite length_app, length_map.
Qed.

(** C8. The loop of [main] works on the collected URLs in their order, one
    round after the other: a round builds the parser for the URL at
    position [k], counted from 1, with the id [k], runs it, and, for the
    record returned, calls [to_raw] and then [to_meta], each once.  Only
    records returned by [parse] are persisted.  The loop goes through all
    the URLs unless a round raises, which ends it. *)
Theorem driver_order (E : Env) (config : Config) (st : State) :
  let r := process_urls E config st in
  exists (events : list Event) (records : list Article),
    log (fst r) = (log st ++ events)%list
    /\ events
       = flat_map round_of
           (zip (enumerate (urls st)) (outcomes_of records (snd r)))
    /\ (if raised (snd r) then (length records < length (urls st))%nat
        else length records = length (urls st))
    /\ parsings events
       = map (fun x : Z * string => (x.2, x.1 + 1))
             (take (length (outcomes_of records (snd r))) (enumerate (urls st)))
    /\ persistence events = persist_all records
    /\ (forall (k : nat) a,
          records !! k = Some a ->
          exists target st_k,
            urls st !! k = Some target
            /\ snd (parse E (HTMLParser_init E target (Z.of_nat k + 1) config)
                      st_k)
               = Return (AnArticle a)).
Proof.
  intros r.
  destruct (process_urls_rounds E config st)
    as (records & Hlog & Hlen & Hpars & Hpers & Hrec).
  by eexists _, records.
Qed.

(** C10. Whatever [parse] returns is the [Article] record, also when the
    fetch had no success; so the test of the driver lets every returned
    value through, and the driver persists one record for each run of
    [parse] that returned: the parsers run are as many as the records
    persisted, plus the one that raised if one did, and as many as the
    collected URLs when none did. *)
Theorem parse_returns_record (E : Env) (config : Config) :
  (forall self st v,
      snd (parse E self st) = Return v -> is_Article v = true)
  /\ (forall self st response,
        answer E (parser_config self) (full_url self) st = Return response ->
        ok response = false ->
        snd (parse E self st) = Return (AnArticle (article self)))
  /\ (forall st,
        let r := process_urls E config st in
        exists events records,
          log (fst r) = (log st ++ events)%list
          /\ persistence events = persist_all records
          /\ length (parsings events)
             = (length records + if raised (snd r) then 1 else 0)%nat
          /\ (snd r = Return tt -> length records = length (urls st))).
Proof.
  split_and!.
  - intros self st v [a ->]%parse_returns_article. done.
  - intros self st response Hanswer Hok.
    rewrite parse_unfold, Hanswer, Hok. done.
  - intros st r.
    destruct (process_urls_rounds E config st)
      as (records & Hlog & Hlen & Hpars & Hpers & _).
    fold r in Hlog, Hlen, Hpars. eexists _, records.
    split_and!; [done | done | |].
    + rewrite Hpars, length_map, length_take.
      unfold outcomes_of. rewrite length_app, length_map.
      unfold enumerate. rewrite length_imap.
      destruct (raised r.2); simpl in *; lia.
    + intros Hret. rewrite Hret in Hlen. done.
Qed.

(** The witness of [parse_returns_record]: two collected URLs, the second
    one a page the site does not have; both records are persisted. *)
Lemma parse_returns_record_witness :
  let config := Demo.config [Demo.seed_news] 3 in
  let st := {| urls := [Demo.url_second; Demo.url_gone]; sent := 0; log := [] |} in
  exists events records,
    log (fst (process_urls Demo.env config st)) = events
    /\ persistence events = persist_all records
    /\ length records = 2%nat.
Proof.
  intros config st.
  destruct (proj2 (proj2 (parse_returns_record Demo.env config)) st)
    as (events & records & Hlog & Hpers & _ & Hlen).
  exists events, records. split_and!; [exact Hlog | exact Hpers |].
  apply Hlen. reflexivity.
Defined.




(** ** Environment preparation *)

Lemma resolve_fresh (p : path) : resolve p (fresh p) = Some (Dir ∅).
Proof.
  induction p as [|name rest IH]; [done |].
  cbn [resolve fresh]. by rewrite lookup_singleton_eq.
Qed.

Lemma is_dir_cons name rest entries child :
  entries !! name = Some child ->
  is_dir (name :: rest) (Dir entries) = is_dir rest child.
Proof. intros Hchild. unfold is_dir. cbn [resolve]. by rewrite Hchild. Qed.

(** [prepare_environment] along the path: below a regular file, at the
    last name, at a missing name, and through an existing entry. *)
Lemma prepare_file (p : path) :
  p <> [] -> prepare_environment p File = Raise NotADirectoryError.
Proof. by destruct p. Qed.

Lemma prepare_last name entries :
  prepare_environment [name] (Dir entries)
  = match entries !! name with
    | Some File => Raise FileExistsError
    | _ => Return (Dir (<[name := Dir ∅]> entries))
    end.
Proof.
  unfold prepare_environment, rmtree, is_dir. cbn [resolve mkdir_parents remove].
  destruct (entries !! name) as [[|entries']|] eqn:Hname; cbn;
    rewrite ?Hname, ?lookup_delete_eq, ?insert_delete_eq; done.
Qed.

Lemma prepare_missing name rest entries :
  entries !! name = None ->
  prepare_environment (name :: rest) (Dir entries)
  = Return (Dir (<[name := fresh rest]> entries)).
Proof.
  intros Hname. unfold prepare_environment, is_dir.
  cbn [resolve mkdir_parents]. by rewrite Hname.
Qed.

Lemma remove_cons name name' rest entries child :
  entries !! name = Some child ->
  remove (name :: name' :: rest) (Dir entries)
  = Dir (<[name := remove (name' :: rest) child]> entries).
Proof. intros Hname. cbn. by rewrite Hname. Qed.

Lemma mkdir_parents_cons name rest entries child :
  entries !! name = Some child ->
  mkdir_parents (name :: rest) (Dir entries)
  = match mkdir_parents rest child with
    | Return child' => Return (Dir (<[name := child']> entries))
    | Raise e => Raise e
    end.
Proof. intros Hname. cbn. by rewrite Hname. Qed.

Lemma prepare_cons name rest entries child :
  rest <> [] ->
  entries !! name = Some child ->
  prepare_environment (name :: rest) (Dir entries)
  = match prepare_environment rest child with
    | Return child' => Return (Dir (<[name := child']> entries))
    | Raise e => Raise e
    end.
Proof.
  intros Hrest Hname. unfold prepare_environment, rmtree.
  rewrite (is_dir_cons _ _ _ _ Hname).
  destruct rest as [|name' rest]; [done |].
  destruct (is_dir (name' :: rest) child).
  - rewrite (remove_cons _ _ _ _ _ Hname).
    rewrite (mkdir_parents_cons _ _ _ _ (lookup_insert_eq _ _ _)).
    destruct (mkdir_parents (name' :: rest) (remove (name' :: rest) child));
      [| done].
    by rewrite insert_insert_eq.
  - by rewrite (mkdir_parents_cons _ _ _ _ Hname).
Qed.

Lemma prepare_fresh (p : path) :
  p <> [] -> prepare_environment p (fresh p) = Return (fresh p).
Proof.
  induction p as [|name rest IH]; [done |]. intros _. cbn [fresh].
  destruct rest as [|name' rest].
  - rewrite prepare_last, lookup_singleton_eq. cbn [fresh].
    by rewrite insert_id by apply lookup_singleton_eq.
  - rewrite (prepare_cons _ _ _ (fresh (name' :: rest)));
      [| done | apply lookup_singleton_eq].
    rewrite IH by done. by rewrite insert_id by apply lookup_singleton_eq.
Qed.

Lemma unobstructed_root p fs : unobstructed p fs -> fs <> File.
Proof. intros Hfree ->. by apply (Hfree []); [apply prefix_nil |]. Qed.

Lemma unobstructed_cons name rest entries child :
  entries !! name = Some child ->
  unobstructed (name :: rest) (Dir entries) -> unobstructed rest child.
Proof.
  intros Hname Hfree q Hq Hfile. apply (Hfree (name :: q)).
  - by apply prefix_cons.
  - cbn [resolve]. by rewrite Hname.
Qed.

(** On a path that no regular file obstructs, the preparation returns a
    file system where the directory exists and is empty, and that file
    system is one the preparation leaves as it is. *)
Lemma prepare_unobstructed (p : path) (fs : node) :
  p <> [] -> unobstructed p fs ->
  exists fs1,
    prepare_environment p fs = Return fs1
    /\ resolve p fs1 = Some (Dir ∅)
    /\ prepare_environment p fs1 = Return fs1.
Proof.
  revert fs. induction p as [|name rest IH]; [done |]. intros fs _ Hfree.
  pose proof (unobstructed_root _ _ Hfree) as Hroot.
  destruct fs as [|entries]; [done |]. clear Hroot.
  destruct rest as [|name' rest].
  - exists (Dir (<[name := Dir ∅]> entries)).
    rewrite !prepare_last, lookup_insert_eq, insert_insert_eq.
    cbn [resolve]. rewrite lookup_insert_eq. split_and!; [| done | done].
    destruct (entries !! name) as [[|entries']|] eqn:Hname; [| done | done].
    exfalso. apply (Hfree [name]); [done |]. cbn [resolve]. by rewrite Hname.
  - destruct (entries !! name) as [child|] eqn:Hname.
    + destruct (IH child) as (child1 & Hprep & Hres & Hagain);
        [done | by eapply unobstructed_cons |].
      exists (Dir (<[name := child1]> entries)).
      rewrite (prepare_cons _ _ _ child) by done. rewrite Hprep.
      rewrite (prepare_cons _ _ _ child1) by (done || apply lookup_insert_eq).
      rewrite Hagain, insert_insert_eq. cbn [resolve].
      rewrite lookup_insert_eq. by split_and!.
    + exists (Dir (<[name := fresh (name' :: rest)]> entries)).
      rewrite prepare_missing by done.
      rewrite (prepare_cons _ _ _ (fresh (name' :: rest)))
        by (done || apply lookup_insert_eq).
      rewrite prepare_fresh by done. rewrite insert_insert_eq.
      cbn [resolve]. rewrite lookup_insert_eq.
      split_and!; [done | apply (resolve_fresh (name' :: rest)) | done].
Qed.

(** A regular file at the path or above it makes the preparation raise. *)
Lemma prepare_obstructed (p q : path) (fs : node) :
  p <> [] -> q `prefix_of` p -> resolve q fs = Some File ->
  raised (prepare_environment p fs) = true.
Proof.
  revert q fs. induction p as [|name rest IH]; [done |].
  intros q fs _ Hq Hfile.
  destruct fs as [|entries]; [by rewrite prepare_file |].
  destruct q as [|name0 q]; [done |].
  pose proof (prefix_cons_inv_1 _ _ _ _ Hq) as ->.
  apply prefix_cons_inv_2 in Hq. cbn [resolve] in Hfile.
  destruct (entries !! name) as [child|] eqn:Hname; [| done].
  cbn in Hfile. destruct rest as [|name' rest].
  - apply prefix_nil_inv in Hq as ->. cbn in Hfile. injection Hfile as ->.
    by rewrite prepare_last, Hname.
  - rewrite (prepare_cons _ _ _ child) by done.
    pose proof (IH q child ltac:(done) Hq Hfile) as Hraised.
    by destruct (prepare_environment (name' :: rest) child).
Qed.




(** * Further properties *)

(** ** More of the validation *)

(** X1. Once the seed URLs are accepted, an article count that is negative,
    that is not an integer, or that is a boolean raises
    [IncorrectNumberOfArticlesError], whatever the fields checked after it
    hold; a negative count is never reported as out of range. *)
Theorem count_wrong_format (c : ConfigDTO) :
  seed_urls_ok (dto_seed_urls c) = true ->
  (forall n, n < 0 ->
     _validate_config_content (with_total_articles (PyInt n) c)
     = Raise IncorrectNumberOfArticlesError)
  /\ (forall v, is_int v = false ->
        _validate_config_content (with_total_articles v c)
        = Raise IncorrectNumberOfArticlesError)
  /\ (forall b,
        _validate_config_content (with_total_articles (PyBool b) c)
        = Raise IncorrectNumberOfArticlesError).
Proof.
  intros Hseed. pose proof (seed_urls_ok_is_list _ Hseed) as Hlist.
  split_and!.
  - intros n Hn. unfold _validate_config_content. cbn.
    rewrite Hseed, Hlist. cbn. by destruct (Z.ltb_spec n 0); [| lia].
  - intros v Hv. unfold _validate_config_content. cbn.
    rewrite Hseed, Hlist, Hv. done.
  - intros b. unfold _validate_config_content. cbn.
    rewrite Hseed, Hlist. done.
Qed.

Lemma count_wrong_format_witness :
  let c := Demo.content [Demo.seed_news] 3 in
  _validate_config_content (with_total_articles (PyInt (-1)) c)
  = Raise IncorrectNumberOfArticlesError
  /\ _validate_config_content (with_total_articles (PyFloat "2.5") c)
     = Raise IncorrectNumberOfArticlesError
  /\ _validate_config_content (with_total_articles (PyBool true) c)
     = Raise IncorrectNumberOfArticlesError.
Proof.
  intros c.
  destruct (count_wrong_format c eq_refl) as (Hneg & Hother & Hbool).
  split_and!; [apply Hneg; lia | by apply Hother | apply Hbool].
Defined.

(** X2. The timeout check lets the boolean [True] through, an integer of
    value 1 for Python: the configuration is accepted and [get_timeout]
    gives that value.  The boolean [False], like every value that is not an
    integer, raises [IncorrectTimeoutError]. *)
Theorem timeout_booleans (c : ConfigDTO) :
  _validate_config_content c = Return tt ->
  (exists config,
      Config_init (with_timeout (PyBool true) c) = Return config
      /\ get_timeout config = 1)
  /\ _validate_config_content (with_timeout (PyBool false) c)
     = Raise IncorrectTimeoutError
  /\ (forall v, is_int v = false ->
        _validate_config_content (with_timeout v c)
        = Raise IncorrectTimeoutError).
Proof.
  intros Hc. apply validate_Return in Hc.
  destruct Hc as (Hseed & (Hn1 & Hn2 & Hn3) & Hh & He & (Ht1 & Ht2) & Hv & Hm).
  pose proof (seed_urls_ok_is_list _ Hseed) as Hlist.
  assert (forall v,
             _validate_config_content (with_timeout v c)
             = if negb (is_int v)
                  || negb ((0 <? int_value v) && (int_value v <=? 60))
               then Raise IncorrectTimeoutError else Return tt) as Hstep.
  { intros v. unfold _validate_config_content. cbn.
    rewrite Hseed, Hlist, Hn1, Hn2, Hh, He, Hv, Hm. cbn.
    destruct (Z.ltb_spec (int_value (dto_total_articles c)) 0); [lia |].
    destruct (Z.gtb_spec (int_value (dto_total_articles c)) 150); [lia |].
    done. }
  split_and!.
  - unfold Config_init. rewrite Hstep. cbn. by eexists.
  - by rewrite Hstep.
  - intros v Hint. by rewrite Hstep, Hint.
Qed.

Lemma timeout_booleans_witness :
  let c := Demo.content [Demo.seed_news] 3 in
  (exists config,
      Config_init (with_timeout (PyBool true) c) = Return config
      /\ get_timeout config = 1)
  /\ _validate_config_content (with_timeout (PyStr "5") c)
     = Raise IncorrectTimeoutError.
Proof.
  intros c. destruct (timeout_booleans c eq_refl) as (Htrue & _ & Hother).
  split; [exact Htrue | by apply Hother].
Defined.

(** X3. A headless-mode value that is not a boolean, in a configuration
    that is valid otherwise, raises [IncorrectVerifyError], the fault of the
    verify flag: the module has no fault of its own for that field. *)
Theorem headless_mode_fault (c : ConfigDTO) (v : pyval) :
  _validate_config_content c = Return tt ->
  is_bool v = false ->
  _validate_config_content (with_headless_mode v c) = Raise IncorrectVerifyError.
Proof.
  intros Hc Hbool. apply validate_Return in Hc.
  destruct Hc as (Hseed & (Hn1 & Hn2 & Hn3) & Hh & He & (Ht1 & Ht2) & Hv & Hm).
  pose proof (seed_urls_ok_is_list _ Hseed) as Hlist.
  unfold _validate_config_content. cbn.
  rewrite Hseed, Hlist, Hn1, Hn2, Hh, He, Ht1, Hv, Hbool. cbn.
  destruct (Z.ltb_spec (int_value (dto_total_articles c)) 0); [lia |].
  destruct (Z.gtb_spec (int_value (dto_total_articles c)) 150); [lia |].
  destruct (Z.ltb_spec 0 (int_value (dto_timeout c))); [| lia].
  destruct (Z.leb_spec (int_value (dto_timeout c)) 60); [| lia].
  done.
Qed.

Lemma headless_mode_fault_witness :
  _validate_config_content
    (with_headless_mode PyNone (Demo.content [Demo.seed_news] 3))
  = Raise IncorrectVerifyError.
Proof.
  exact (headless_mode_fault (Demo.content [Demo.seed_news] 3) PyNone
           eq_refl eq_refl).
Defined.

Lemma str_items_map (l : list pyval) :
  forallb seed_url_ok l = true ->
  l = map PyStr (str_items (PyList l))
  /\ Forall (fun u => String.prefix "https://otr-online.ru/" u = true)
       (str_items (PyList l)).
Proof.
  induction l as [|u l IH]; [done |]. cbn [forallb].
  intros [Hu Hl]%andb_true_iff. destruct (IH Hl) as [Heq Hall].
  destruct u; try discriminate. cbn in *. split; [by f_equal | by constructor].
Qed.

(** X4. A constructed [Config] gives back, through its getters, the values
    of the configuration file: the seed URLs, all of them strings starting
    with [https://otr-online.ru/], the count, the headers, the encoding and
    the two flags are those of the file, and the timeout is the integer of
    the file (the value 1 when the file has [true]). *)
Theorem Config_getters (c : ConfigDTO) (config : Config) :
  Config_init c = Return config ->
  dto_seed_urls c = PyList (map PyStr (get_seed_urls config))
  /\ Forall (fun u => String.prefix "https://otr-online.ru/" u = true)
       (get_seed_urls config)
  /\ dto_total_articles c = PyInt (get_num_articles config)
  /\ dto_headers c = PyDict (get_headers config)
  /\ dto_encoding c = PyStr (get_encoding config)
  /\ (dto_timeout c = PyInt (get_timeout config)
      \/ dto_timeout c = PyBool true /\ get_timeout config = 1)
  /\ dto_should_verify_certificate c = PyBool (get_verify_certificate config)
  /\ dto_headless_mode c = PyBool (get_headless_mode config).
Proof.
  unfold Config_init.
  destruct (_validate_config_content c) as [[]|] eqn:Hc; [| discriminate].
  intros [= <-]. apply validate_Return in Hc.
  destruct Hc as (Hseed & (Hn1 & Hn2 & Hn3) & Hh & He & (Ht1 & Ht2) & Hv & Hm).
  destruct c as [seeds headers total timeout enc headless verify]. cbn in *.
  destruct seeds as [| | | | |l|]; try discriminate.
  destruct (str_items_map l Hseed) as [Hl Hall].
  destruct total; try discriminate.
  destruct headers; try discriminate.
  destruct enc; try discriminate.
  destruct verify; try discriminate.
  destruct headless; try discriminate.
  split_and!; try done; [by f_equal |].
  destruct timeout as [|[]| | | | |]; try discriminate; cbn in *;
    [by right | lia | by left].
Qed.

Lemma Config_getters_witness :
  get_seed_urls (Demo.config [Demo.seed_news] 3) = [Demo.seed_news]
  /\ Forall (fun u => String.prefix "https://otr-online.ru/" u = true)
       (get_seed_urls (Demo.config [Demo.seed_news] 3)).
Proof.
  destruct (Config_getters (Demo.content [Demo.seed_news] 3)
              (Demo.config [Demo.seed_news] 3) eq_refl) as (_ & Hall & _).
  split; [reflexivity | exact Hall].
Defined.

(** X5. An empty list of seed URLs is accepted, and the crawler of such a
    configuration sends no request, extracts nothing and returns with the
    collected URLs as they were. *)
Theorem no_seeds (E : Env) (c : ConfigDTO) (config : Config) (st : State) :
  _validate_config_content c = Return tt ->
  Config_init (with_seed_urls (PyList []) c) = Return config ->
  _validate_config_content (with_seed_urls (PyList []) c) = Return tt
  /\ find_articles E config st = (st, Return tt).
Proof.
  intros Hc Hinit.
  assert (_validate_config_content (with_seed_urls (PyList []) c) = Return tt)
    as Hvalid.
  { apply validate_Return. apply validate_Return in Hc. cbn. tauto. }
  split; [done |]. unfold Config_init in Hinit. rewrite Hvalid in Hinit.
  injection Hinit as <-. reflexivity.
Qed.

Lemma no_seeds_witness :
  find_articles Demo.env (Demo.config [] 3) Demo.start
  = (Demo.start, Return tt).
Proof.
  exact (proj2 (no_seeds Demo.env (Demo.content [Demo.seed_news] 3)
                  (Demo.config [] 3) Demo.start eq_refl eq_refl)).
Defined.

(** ** More of the collector *)

(** What [_extract_url] returns is the failure value or starts with
    [http]. *)
Lemma extract_url_shape (soup : PageElement) :
  _extract_url soup = "EXTRACTION ERROR"
  \/ String.prefix "http" (_extract_url soup) = true.
Proof.
  unfold _extract_url. destruct (find "a" soup) as [link|]; [| by left].
  destruct (attr "href" (attrs_of link)) as [href|]; [| by left].
  destruct (String.prefix "http" href) eqn:Hp; cbn; right; [done |].
  reflexivity.
Qed.

Lemma make_request_state E config target st :
  fst (make_request E target config st)
  = {| urls := urls st; sent := S (sent st);
       log := (log st ++ [Requested target])%list |}.
Proof. unfold make_request. by destruct (requests_get E _ _ _ _ _). Qed.

Lemma make_request_raises E config target st e :
  snd (make_request E target config st) = Raise e ->
  answer E config target st = Raise e.
Proof.
  unfold make_request, answer.
  by destruct (requests_get E _ _ _ _ _).
Qed.

Lemma make_request_returns E config target st request :
  snd (make_request E target config st) = Return request ->
  exists response,
    answer E config target st = Return response
    /\ request = set_encoding (get_encoding config) response.
Proof.
  unfold make_request, answer.
  destruct (requests_get E _ _ _ _ _) as [response|]; [| done].
  intros [= <-]. by exists response.
Qed.

(** The inner loop sends at most one request for each seed, and raises
    only what a request raised. *)
Lemma inner_for_requests E config soup max seeds att st :
  (sent st <= sent (fst (inner_for E config soup max seeds att st))
   <= sent st + length seeds)%nat
  /\ forall e,
      snd (inner_for E config soup max seeds att st) = Raise e ->
      exists target st0, answer E config target st0 = Raise e.
Proof.
  revert att st. induction seeds as [|i rest IH]; intros att st.
  { cbn. split; [lia | done]. }
  rewrite inner_for_cons.
  pose proof (make_request_state E config i st) as Hst.
  pose proof (make_request_raises E config i st) as Hraise.
  destruct (make_request E i config st) as [st1 [query|e]];
    cbn [fst snd] in Hst, Hraise; subst st1.
  2:{ cbn. split; [lia |]. intros e' [= <-]. eauto. }
  clear Hraise. destruct (negb (ok query)).
  { destruct (IH att {| urls := urls st; sent := S (sent st);
                        log := (log st ++ [Requested i])%list |})
      as [Hsent Horigin].
    cbn in Hsent. split; [cbn; lia | done]. }
  destruct (attempts_loop_reaches config soup max att
              {| urls := urls st; sent := S (sent st);
                 log := (log st ++ [Requested i])%list |})
    as (k & _ & _ & _ & Hsame & _).
  destruct (attempts_loop config soup max att _) as [st2 att2].
  cbn in Hsame. destruct (len (urls st2) >=? get_num_articles config).
  { cbn. split; [lia | done]. }
  destruct (IH att2 st2) as [Hsent Horigin].
  split; [cbn; lia | done].
Qed.

(** The visit of a seed, for each answer to its first request. *)
Lemma visit_seed_unfold E config seed_url st :
  visit_seed E config seed_url st
  = let st1 := {| urls := urls st; sent := S (sent st);
                  log := (log st ++ [Requested seed_url])%list |} in
    match answer E config seed_url st with
    | Raise e => (st1, Raise e)
    | Return response =>
        if 400 <=? status_code response then (st1, Return tt)
        else
          match inner_for E config
                  (lxml E (decoded response (get_encoding config)))
                  (get_num_articles config * 2) (get_seed_urls config) 0 st1
          with
          | (st2, Return _) => (st2, Return tt)
          | (st2, Raise e) => (st2, Raise e)
          end
    end.
Proof.
  unfold visit_seed, mbind, M_bind, make_request, answer. cbn zeta.
  destruct (requests_get E _ _ _ _ _) as [response|e]; [| done].
  change (status_code (set_encoding (get_encoding config) response))
    with (status_code response).
  change (ok (set_encoding (get_encoding config) response)) with (ok response).
  change (text (set_encoding (get_encoding config) response))
    with (decoded response (get_encoding config)).
  unfold ok, get_search_urls.
  destruct (Z.leb_spec 400 (status_code response)) as [Hge|Hlt].
  - destruct (Z.ltb_spec (status_code response) 600); cbn; [done |].
    by destruct (Z.gtb_spec (status_code response) 400); [| lia].
  - cbn. destruct (Z.gtb_spec (status_code response) 400); [lia |].
    by destruct (inner_for _ _ _ _ _ _ _) as [st2 [att|e]].
Qed.

Lemma visit_seed_requests E config seed_url st :
  (sent st <= sent (fst (visit_seed E config seed_url st))
   <= sent st + (1 + length (get_seed_urls config)))%nat
  /\ forall e,
      snd (visit_seed E config seed_url st) = Raise e ->
      exists target st0, answer E config target st0 = Raise e.
Proof.
  rewrite visit_seed_unfold. cbn zeta.
  destruct (answer E config seed_url st) as [response|e] eqn:Hanswer.
  2:{ cbn. split; [lia |]. intros e' [= <-]. eauto. }
  destruct (400 <=? status_code response); [cbn; split; [lia | done] |].
  destruct (inner_for_requests E config
              (lxml E (decoded response (get_encoding config)))
              (get_num_articles config * 2) (get_seed_urls config) 0
              {| urls := urls st; sent := S (sent st);
                 log := (log st ++ [Requested seed_url])%list |})
    as [Hsent Horigin].
  destruct (inner_for _ _ _ _ _ _ _) as [st2 [att|e]]; cbn in *;
    (split; [lia |]); [done |].
  intros e' [= <-]. by apply Horigin.
Qed.

(** X6. A seed page is used exactly when its status code is below 400: for
    a status of 400 or more the visit of the seed ends after its one
    request; for a lower status the page, read in the configured encoding,
    is parsed and the inner loop runs on it with [url_attempts] at 0 and a
    budget of twice the count. *)
Theorem seed_usable (E : Env) (config : Config) (seed_url : string)
  (st : State) (response : Response) :
  answer E config seed_url st = Return response ->
  let st1 := {| urls := urls st; sent := S (sent st);
                log := (log st ++ [Requested seed_url])%list |} in
  (400 <= status_code response ->
   visit_seed E config seed_url st = (st1, Return tt))
  /\ (status_code response < 400 ->
      fst (visit_seed E config seed_url st)
      = fst (inner_for E config
               (lxml E (decoded response (get_encoding config)))
               (get_num_articles config * 2) (get_seed_urls config) 0 st1)).
Proof.
  intros Hanswer st1. rewrite visit_seed_unfold, Hanswer. cbn zeta. fold st1.
  split; intros Hstatus.
  - by destruct (Z.leb_spec 400 (status_code response)); [| lia].
  - destruct (Z.leb_spec 400 (status_code response)); [lia |].
    by destruct (inner_for _ _ _ _ _ _ _) as [st2 [att|e]].
Qed.

Lemma seed_usable_witness :
  let config := Demo.config [Demo.url_gone] 3 in
  visit_seed Demo.env config Demo.url_gone Demo.start
  = ({| urls := []; sent := 1; log := [Requested Demo.url_gone] |}, Return tt).
Proof.
  intros config.
  apply (proj1 (seed_usable Demo.env config Demo.url_gone Demo.start
                  (Demo.page 404 "") eq_refl)).
  simpl. lia.
Defined.

Lemma for_each_requests {A} (E : Env) (config : Config)
  (body : A -> M unit) (bound : nat) (l : list A) (st : State) :
  (forall x st0,
      (sent st0 <= sent (fst (body x st0)) <= sent st0 + bound)%nat
      /\ forall e, snd (body x st0) = Raise e ->
                   exists target st1, answer E config target st1 = Raise e) ->
  (sent st <= sent (fst (for_each l body st))
   <= sent st + length l * bound)%nat
  /\ forall e, snd (for_each l body st) = Raise e ->
               exists target st1, answer E config target st1 = Raise e.
Proof.
  intros Hbody. revert st. induction l as [|x rest IH]; intros st.
  { cbn. split; [lia | done]. }
  rewrite for_each_cons. destruct (Hbody x st) as [Hsent Horigin].
  destruct (body x st) as [st1 [[]|e]]; cbn [fst snd] in *.
  - destruct (IH st1) as [Hsent' Horigin']. split; [simpl length; lia | done].
  - split; [simpl length; lia | done].
Qed.

(** X7. A run of [find_articles] sends at most one request for each seed
    and, for each seed with a usable page, one more for each seed: at most
    [n * (1 + n)] requests for [n] seed URLs, whatever the count and the
    answers. *)
Theorem requests_bound (E : Env) (config : Config) (st : State) :
  let n := length (get_seed_urls config) in
  (sent st <= sent (fst (find_articles E config st)) <= sent st + n * (1 + n))%nat.
Proof.
  intros n. unfold find_articles, get_search_urls.
  apply (for_each_requests E config). intros x st0.
  apply visit_seed_requests.
Qed.

(** X8. [find_articles] raises nothing of its own: when it ends with an
    exception, a request of the run raised that exception; on a network
    that always answers it returns. *)
Theorem collector_raises_only_requests (E : Env) (config : Config) (st : State) :
  (forall e,
      snd (find_articles E config st) = Raise e ->
      exists target st0, answer E config target st0 = Raise e)
  /\ (always_answers E -> snd (find_articles E config st) = Return tt).
Proof.
  assert (forall e,
             snd (find_articles E config st) = Raise e ->
             exists target st0, answer E config target st0 = Raise e) as Horigin.
  { unfold find_articles, get_search_urls.
    apply (for_each_requests E config _ (1 + length (get_seed_urls config))).
    intros x st0. apply visit_seed_requests. }
  split; [done |]. intros Halways.
  destruct (snd (find_articles E config st)) as [[]|e] eqn:Hr; [done |].
  destruct (Horigin e eq_refl) as (target & st0 & Hanswer).
  unfold answer in Hanswer. specialize (Halways (sent st0) target
    (get_headers config) (get_timeout config) (get_verify_certificate config)).
  by rewrite Hanswer in Halways.
Qed.

Lemma collector_raises_only_requests_witness :
  let config := Demo.config [Demo.seed_news] 3 in
  exists target st0, answer Demo.offline config target st0 = Raise RequestException.
Proof.
  intros config.
  apply (proj1 (collector_raises_only_requests Demo.offline config Demo.start)).
  reflexivity.
Defined.

Lemma seed_event_collector (soup : PageElement) (events : list Event) :
  Forall (seed_event (_extract_url soup)) events ->
  Forall collector_event events
  /\ exists link, Forall (eq link) (discoveries events).
Proof.
  intros Hall. split.
  - eapply Forall_impl; [exact Hall |]. intros e [-> | Hreq]; [left | by right].
    by exists soup.
  - exists (_extract_url soup).
    induction Hall as [|e events He _ IH]; [done |].
    unfold discoveries in *. cbn [omap list_omap].
    destruct He as [-> | [target ->]]; [| done].
    case_bool_decide; [done |]. by constructor.
Qed.

(** The visit of a seed makes only calls of the collector and adds at most
    one URL. *)
Lemma visit_seed_events E config seed_url st :
  exists events,
    reaches config st events (fst (visit_seed E config seed_url st))
    /\ Forall collector_event events
    /\ (length (urls (fst (visit_seed E config seed_url st)))
        <= length (urls st) + 1)%nat.
Proof.
  rewrite visit_seed_unfold. cbn zeta.
  set (st1 := {| urls := urls st; sent := S (sent st);
                 log := (log st ++ [Requested seed_url])%list |}).
  assert (reaches config st [Requested seed_url] st1) as Hreq.
  { unfold reaches. cbn. split_and!; [done | done | lia]. }
  assert (Forall collector_event [Requested seed_url]) as Hev.
  { apply Forall_singleton. right. by exists seed_url. }
  assert (exists events,
             reaches config st events st1 /\ Forall collector_event events
             /\ (length (urls st1) <= length (urls st) + 1)%nat) as Hstop.
  { exists [Requested seed_url]. split_and!; [done | done | cbn; lia]. }
  destruct (answer E config seed_url st) as [response|e]; [| done].
  destruct (400 <=? status_code response); [done |].
  destruct (inner_for_reaches E config
              (lxml E (decoded response (get_encoding config)))
              (get_num_articles config * 2) (get_seed_urls config) 0 st1)
    as (events & Hr & Hall & _).
  destruct (seed_event_collector _ _ Hall) as [Hcoll [link Hlink]].
  assert (length (urls (inner_for E config
                          (lxml E (decoded response (get_encoding config)))
                          (get_num_articles config * 2)
                          (get_seed_urls config) 0 st1).1)
          <= length (urls st) + 1)%nat as Hlen.
  { destruct Hr as (_ & -> & _).
    destruct (add_new_single link _ (urls st1) Hlink) as [-> | ->];
      rewrite ?length_app; cbn; lia. }
  exists ([Requested seed_url] ++ events)%list.
  destruct (inner_for _ _ _ _ _ _ _) as [st2 [att|e]]; cbn [fst] in *;
    (split_and!; [by eapply reaches_trans | by apply Forall_app | done]).
Qed.

Lemma find_articles_events E config st :
  exists events,
    reaches config st events (fst (find_articles E config st))
    /\ Forall collector_event events
    /\ (length (urls (fst (find_articles E config st)))
        <= length (urls st) + length (get_seed_urls config))%nat.
Proof.
  unfold find_articles, get_search_urls. revert st.
  induction (get_seed_urls config) as [|seed_url rest IH]; intros st.
  { exists []. cbn. split_and!; [apply reaches_refl | done | lia]. }
  rewrite for_each_cons.
  destruct (visit_seed_events E config seed_url st) as (ev1 & Hr1 & Hc1 & Hl1).
  destruct (visit_seed E config seed_url st) as [st1 [[]|e]]; cbn [fst] in *.
  - destruct (IH st1) as (ev2 & Hr2 & Hc2 & Hl2).
    exists (ev1 ++ ev2)%list.
    split_and!; [by eapply reaches_trans | by apply Forall_app |].
    simpl length. lia.
  - exists ev1. split_and!; [done | done | simpl length; lia].
Qed.

Lemma discoveries_absolute (events : list Event) :
  Forall collector_event events ->
  Forall (fun u => String.prefix "http" u = true) (discoveries events).
Proof.
  induction 1 as [|e events He _ IH]; [done |].
  unfold discoveries in *. cbn [omap list_omap].
  destruct He as [[soup ->] | [target ->]]; [| done].
  case_bool_decide as Herr; [done |]. constructor; [| done].
  by destruct (extract_url_shape soup).
Qed.

Lemma add_new_Forall (P : string -> Prop) (l acc : list string) :
  Forall P acc -> Forall P l -> Forall P (fold_left add_new l acc).
Proof.
  intros Hacc Hl. revert acc Hacc.
  induction Hl as [|x l Hx _ IH]; intros acc Hacc; [done |].
  cbn. apply IH. unfold add_new. case_bool_decide; [done |].
  apply Forall_app. split; [done | by apply Forall_singleton].
Qed.

(** X9. Every URL a crawler collects starts with [http]; the value
    [EXTRACTION ERROR], which [_extract_url] returns on failure, is never
    among the collected URLs. *)
Theorem collected_urls_absolute (E : Env) (config : Config) (st : State) :
  let st' := fst (find_articles E config (Crawler_init st)) in
  Forall (fun u => String.prefix "http" u = true) (urls st')
  /\ "EXTRACTION ERROR" ∉ urls st'.
Proof.
  intros st'. subst st'.
  destruct (find_articles_events E config (Crawler_init st))
    as (events & (_ & Hurls & _) & Hcoll & _).
  assert (Forall (fun u => String.prefix "http" u = true)
            (urls (fst (find_articles E config (Crawler_init st))))) as Hall.
  { rewrite Hurls. apply add_new_Forall; [done |].
    by apply discoveries_absolute. }
  split; [done |]. intros Hin.
  rewrite Forall_forall in Hall. by apply Hall in Hin.
Qed.

(** X10. A run collects at most one URL for each seed URL of the
    configuration: the collected list grows by at most the number of
    seeds, whatever the count asked for. *)
Theorem one_url_per_seed (E : Env) (config : Config) (st : State) :
  (length (urls (fst (find_articles E config st)))
   <= length (urls st) + length (get_seed_urls config))%nat.
Proof.
  by destruct (find_articles_events E config st) as (events & _ & _ & Hlen).
Qed.

(** With the count reached, the inner loop makes requests only. *)
Lemma inner_for_idle E config soup max seeds att st :
  get_num_articles config <= len (urls st) ->
  urls (fst (inner_for E config soup max seeds att st)) = urls st
  /\ exists targets,
      log (fst (inner_for E config soup max seeds att st))
      = (log st ++ map Requested targets)%list.
Proof.
  revert att st. induction seeds as [|i rest IH]; intros att st Hfull.
  { cbn. split; [done |]. exists []. cbn. by rewrite app_nil_r. }
  rewrite inner_for_cons.
  pose proof (make_request_state E config i st) as Hst.
  destruct (make_request E i config st) as [st1 [query|e]];
    cbn [fst] in Hst; subst st1.
  2:{ cbn. split; [done |]. by exists [i]. }
  destruct (negb (ok query)).
  { destruct (IH att {| urls := urls st; sent := S (sent st);
                        log := (log st ++ [Requested i])%list |} Hfull)
      as [Hurls [targets Hlog]].
    split; [done |]. exists (i :: targets). rewrite Hlog. cbn.
    by rewrite <- app_assoc. }
  rewrite attempts_loop_step. cbn [urls].
  destruct (Z.ltb_spec (len (urls st)) (get_num_articles config)); [lia |].
  cbn. destruct (Z.geb_spec (len (urls st)) (get_num_articles config)); [| lia].
  cbn. split; [done |]. by exists [i].
Qed.

Lemma visit_seed_idle E config seed_url st :
  get_num_articles config <= len (urls st) ->
  urls (fst (visit_seed E config seed_url st)) = urls st
  /\ exists targets,
      log (fst (visit_seed E config seed_url st))
      = (log st ++ map Requested targets)%list.
Proof.
  intros Hfull. rewrite visit_seed_unfold. cbn zeta.
  destruct (answer E config seed_url st) as [response|e];
    [| cbn; split; [done | by exists [seed_url]]].
  destruct (400 <=? status_code response);
    [cbn; split; [done | by exists [seed_url]] |].
  destruct (inner_for_idle E config
              (lxml E (decoded response (get_encoding config)))
              (get_num_articles config * 2) (get_seed_urls config) 0
              {| urls := urls st; sent := S (sent st);
                 log := (log st ++ [Requested seed_url])%list |} Hfull)
    as [Hurls [targets Hlog]].
  destruct (inner_for _ _ _ _ _ _ _) as [st2 [att|e]]; cbn [fst] in *;
    (split; [done |]); exists (seed_url :: targets); rewrite Hlog; cbn;
    by rewrite <- app_assoc.
Qed.

(** X11. Once the collected URLs are as many as the count asks for, in
    particular from the start when the count is 0, [find_articles] still
    requests seed pages but extracts nothing and collects nothing: the log
    gains requests only and the collected URLs stay as they are. *)
Theorem count_reached (E : Env) (config : Config) (st : State) :
  get_num_articles config <= len (urls st) ->
  urls (fst (find_articles E config st)) = urls st
  /\ exists targets,
      log (fst (find_articles E config st))
      = (log st ++ map Requested targets)%list.
Proof.
  unfold find_articles, get_search_urls. revert st.
  induction (get_seed_urls config) as [|seed_url rest IH]; intros st Hfull.
  { cbn. split; [done |]. exists []. cbn. by rewrite app_nil_r. }
  rewrite for_each_cons.
  destruct (visit_seed_idle E config seed_url st Hfull)
    as [Hurls [targets Hlog]].
  destruct (visit_seed E config seed_url st) as [st1 [[]|e]]; cbn [fst] in *.
  - destruct (IH st1) as [Hurls' [targets' Hlog']]; [by rewrite Hurls |].
    split; [by rewrite Hurls' |]. exists (targets ++ targets')%list.
    by rewrite Hlog', Hlog, map_app, app_assoc.
  - split; [done | by exists targets].
Qed.

Lemma count_reached_witness :
  let config := Demo.config [Demo.seed_news; Demo.seed_society] 0 in
  urls (fst (find_articles Demo.env config Demo.start)) = []
  /\ exists targets,
      log (fst (find_articles Demo.env config Demo.start))
      = map Requested targets.
Proof.
  intros config.
  apply (count_reached Demo.env config Demo.start). vm_compute. discriminate.
Defined.

(** ** More of the extractor *)

Lemma fill_text_identity soup a :
  article_id (_fill_article_with_text soup a) = article_id a
  /\ url (_fill_article_with_text soup a) = url a.
Proof. unfold _fill_article_with_text. by destruct (find_all "div" soup). Qed.

Lemma fill_meta_identity soup a a' :
  _fill_article_with_meta_information soup a = Return a' ->
  article_id a' = article_id a /\ url a' = url a.
Proof.
  unfold _fill_article_with_meta_information.
  destruct (find "title" soup); [| done].
  by destruct (find_class "itemprop" "author" soup); intros [= <-].
Qed.

(** The record [parse] returns has the id and the URL of the record of the
    parser. *)
Lemma parse_keeps_identity E self st a :
  snd (parse E self st) = Return (AnArticle a) ->
  article_id a = article_id (article self) /\ url a = url (article self).
Proof.
  rewrite parse_unfold. cbn [snd].
  destruct (answer E _ _ st) as [response|e]; [| done].
  destruct (ok response); [| by intros [= <-]].
  cbn zeta.
  destruct (_fill_article_with_meta_information _ _) as [a'|] eqn:Hmeta;
    [| done].
  intros [= <-]. apply fill_meta_identity in Hmeta as [-> ->].
  apply fill_text_identity.
Qed.



(** X13. What [parse] does and returns depends on the configuration only
    through the parameters of the request: the encoding of the
    configuration plays no part, the document is always read as utf-8. *)
Theorem parse_ignores_encoding (E : Env) (target : string) (id : Z)
  (config config' : Config) (st : State) :
  get_headers config = get_headers config' ->
  get_timeout config = get_timeout config' ->
  get_verify_certificate config = get_verify_certificate config' ->
  parse E (HTMLParser_init E target id config) st
  = parse E (HTMLParser_init E target id config') st.
Proof.
  intros Hheaders Htimeout Hverify. rewrite !parse_unfold.
  unfold answer. cbn [full_url parser_config parser_article_id article
                        HTMLParser_init].
  by rewrite Hheaders, Htimeout, Hverify.
Qed.

Lemma parse_ignores_encoding_witness :
  let config := Demo.config [Demo.seed_news] 3 in
  let config' :=
    {| get_seed_urls := []; get_num_articles := 7;
       get_headers := get_headers config; get_encoding := "cp1251";
       get_timeout := 5; get_verify_certificate := true;
       get_headless_mode := false |} in
  parse Demo.env (HTMLParser_init Demo.env Demo.url_second 1 config) Demo.start
  = parse Demo.env (HTMLParser_init Demo.env Demo.url_second 1 config') Demo.start.
Proof.
  intros config config'.
  apply (parse_ignores_encoding Demo.env Demo.url_second 1 config config');
    reflexivity.
Defined.

(** ** More of the driver *)

(** X14. The loop of [main] leaves the collected URLs as they are, and the
    records it persists are numbered by position: the record persisted in
    round [k], counted from 0, has the URL at position [k] of the collected
    URLs and the id [k + 1]. *)
Theorem records_numbered (E : Env) (config : Config) (st : State) :
  let r := process_urls E config st in
  urls (fst r) = urls st
  /\ exists events records,
      log (fst r) = (log st ++ events)%list
      /\ persistence events = persist_all records
      /\ (length records <= length (urls st))%nat
      /\ forall (k : nat) a,
          records !! k = Some a ->
          urls st !! k = Some (url a) /\ article_id a = Z.of_nat k + 1.
Proof.
  intros r.
  destruct (process_urls_rounds E config st)
    as (records & Hlog & Hlen & _ & Hpers & Hrec).
  fold r in Hlog, Hlen. split.
  - subst r. unfold process_urls, mbind, M_bind, get_urls. cbn zeta.
    rewrite enumerate_enumerate_from.
    by destruct (process_from E config 0 (urls st) st) as (? & _ & ? & _).
  - eexists _, records. split_and!; [exact Hlog | exact Hpers | |].
    + destruct (raised r.2); lia.
    + intros k a Hk. destruct (Hrec k a Hk) as (target & st_k & Hurl & Hparse).
      apply parse_keeps_identity in Hparse as [Hid Hu]. cbn in Hid, Hu.
      by rewrite Hurl, Hu, Hid.
Qed.

(** ** More of the environment preparation *)

Lemma resolve_app (p q : path) (n : node) :
  resolve (p ++ q)%list n = resolve p n ≫= resolve q.
Proof.
  revert n. induction p as [|name rest IH]; intros n; [done |].
  cbn [app resolve]. destruct n as [|entries]; [done |].
  destruct (entries !! name) as [child|]; [apply IH | done].
Qed.

Lemma resolve_insert name child entries n q :
  resolve (n :: q) (Dir (<[name := child]> entries))
  = if bool_decide (n = name) then resolve q child
    else resolve (n :: q) (Dir entries).
Proof.
  cbn [resolve]. case_bool_decide as Hn.
  - subst n. by rewrite lookup_insert_eq.
  - by rewrite lookup_insert_ne.
Qed.

Lemma apart_cons name rest (q : path) :
  apart (name :: rest) q ->
  exists n q', q = n :: q' /\ (n = name -> apart rest q').
Proof.
  intros [Hpq Hqp]. destruct q as [|n q']; [by destruct Hqp; apply prefix_nil |].
  exists n, q'. split; [done |]. intros ->. split.
  - intros Hpre. apply Hpq. by apply prefix_cons.
  - intros Hpre. apply Hqp. by apply prefix_cons.
Qed.

(** A chain of fresh directories holds nothing off its path. *)
Lemma resolve_fresh_off (p q : path) :
  ~ q `prefix_of` p -> resolve q (fresh p) = None.
Proof.
  revert q. induction p as [|name rest IH]; intros q Hq.
  - destruct q as [|n q']; [by destruct Hq |]. done.
  - destruct q as [|n q']; [by destruct Hq; apply prefix_nil |].
    cbn [fresh resolve]. destruct (decide (n = name)) as [-> | Hn].
    + rewrite lookup_singleton_eq. cbn. apply IH. intros Hpre. apply Hq.
      by apply prefix_cons.
    + by rewrite lookup_singleton_ne.
Qed.

(** What a preparation that returns leaves: the directory, empty, and every
    node off its path as it was. *)
Lemma prepare_returns (p : path) (fs fs1 : node) :
  prepare_environment p fs = Return fs1 ->
  resolve p fs1 = Some (Dir ∅)
  /\ forall q, apart p q -> resolve q fs1 = resolve q fs.
Proof.
  revert fs fs1. induction p as [|name rest IH]; intros fs fs1.
  { unfold prepare_environment, rmtree, is_dir. cbn. by destruct fs. }
  destruct fs as [|entries]; [by rewrite prepare_file |].
  destruct rest as [|name' rest].
  - rewrite prepare_last. intros Hret.
    assert (fs1 = Dir (<[name := Dir ∅]> entries)) as ->
      by (destruct (entries !! name) as [[|]|]; congruence).
    split; [cbn [resolve]; by rewrite lookup_insert_eq |].
    intros q (n & q' & -> & Hq)%apart_cons. rewrite resolve_insert.
    case_bool_decide as Hn; [| done].
    destruct (Hq Hn) as [Hempty _]. by destruct Hempty; apply prefix_nil.
  - destruct (entries !! name) as [child|] eqn:Hname.
    + rewrite (prepare_cons _ _ _ child) by done.
      destruct (prepare_environment (name' :: rest) child) as [child1|] eqn:Hc;
        [| done].
      intros [= <-]. destruct (IH _ _ Hc) as [Hres Hframe]. split.
      * change (name :: name' :: rest) with ([name] ++ name' :: rest)%list.
        rewrite resolve_app. cbn [resolve]. by rewrite lookup_insert_eq.
      * intros q (n & q' & -> & Hq)%apart_cons. rewrite resolve_insert.
        case_bool_decide as Hn; [| done]. subst n.
        rewrite (Hframe q' (Hq eq_refl)). cbn [resolve]. by rewrite Hname.
    + rewrite prepare_missing by done. intros [= <-]. split.
      * change (name :: name' :: rest) with ([name] ++ name' :: rest)%list.
        rewrite resolve_app. cbn [resolve]. rewrite lookup_insert_eq.
        apply (resolve_fresh (name' :: rest)).
      * intros q (n & q' & -> & Hq)%apart_cons. rewrite resolve_insert.
        case_bool_decide as Hn; [| done]. subst n.
        change (Dir {[name' := fresh rest]}) with (fresh (name' :: rest)).
        rewrite resolve_fresh_off by apply (Hq eq_refl).
        cbn [resolve]. by rewrite Hname.
Qed.



(** ** The whole of main *)

Lemma collector_no_persistence (events : list Event) :
  Forall collector_event events -> persistence events = [] /\ parsings events = [].
Proof.
  induction 1 as [|e events He _ [IH1 IH2]]; [done |].
  unfold persistence, parsings in *.
  destruct He as [[soup ->] | [target ->]]; cbn; by rewrite ?IH1, ?IH2.
Qed.

